(** * vpoker: the table-state engine, embedded and verified

    A shallow embedding of [pkg/poker/poker.go] and of the request handlers
    of the server's [main] package.  Pointers ([*TableItem], [*Player]) are
    locations of an explicit store, channels are entries of a channel store,
    and Go's [panic]/[recover] is an outcome of the state monad [M]. *)

From Stdlib Require Import ZArith String Ascii.
From Stdlib.Strings Require Import Byte.
From stdpp Require Import gmap strings list fin_maps.

Local Open Scope string_scope.
Local Open Scope list_scope.
Local Open Scope Z_scope.

(** ** google/uuid: a UUID is a [16]byte array *)

Abbreviation UUID := (list Byte.byte).

#[global] Instance byte_eq_dec : EqDecision Byte.byte := Byte.byte_eq_dec.
#[global] Instance byte_countable : Countable Byte.byte.
Proof.
  apply (inj_countable Byte.to_N Byte.of_N).
  intros b. apply Byte.of_to_N.
Defined.

Definition hextable : string := "0123456789abcdef".

Definition hex_digit (n : N) : string :=
  match String.get (N.to_nat n) hextable with
  | Some c => String c EmptyString
  | None => EmptyString
  end.

(** [encoding/hex.Encode]: two lower-case digits per byte,
    [hextable[v>>4]] then [hextable[v&0x0f]]. *)
Fixpoint hex_Encode (src : list Byte.byte) : string :=
  match src with
  | [] => EmptyString
  | v :: rest =>
      hex_digit (N.shiftr (Byte.to_N v) 4) +:+
      hex_digit (N.land (Byte.to_N v) 15) +:+ hex_Encode rest
  end.

(** Go's slice expression [s[lo:hi]]. *)
Definition slice {A} (lo hi : nat) (s : list A) : list A :=
  take (hi - lo) (drop lo s).

(** [UUID.String]: the canonical form xxxxxxxx-xxxx-xxxx-xxxx-xxxxxxxxxxxx. *)
Definition uuid_String (u : UUID) : string :=
  hex_Encode (slice 0 4 u) +:+ "-" +:+
  hex_Encode (slice 4 6 u) +:+ "-" +:+
  hex_Encode (slice 6 8 u) +:+ "-" +:+
  hex_Encode (slice 8 10 u) +:+ "-" +:+
  hex_Encode (slice 10 16 u).

(** ** Entity model (poker.go) *)

Record User := mkUser {
  User_ID : UUID;
  User_Name : string;
}.

(** [type Side string] with its two constants. *)
Definition Cover : string := "cover".
Definition Face : string := "face".

Definition BlankSuit : string := "".

Record Card := mkCard {
  Suit : string;
  Rank : string;
  Side : string;
}.

Record Chip := mkChip {
  Color : string;
  Val : Z;
}.

(** [type Class string] with its four constants. *)
Definition CardClass : string := "card".
Definition ChipClass : string := "chip".
Definition DealerClass : string := "dealer".
Definition PlayerClass : string := "player".

(** [TableItem] embeds [Card] and [Chip]. *)
Record TableItem := mkTableItem {
  TI_Card : Card;
  TI_Chip : Chip;
  Class : string;
  OwnerID : string;
  ID : Z;
  X : Z;
  Y : Z;
}.

Definition NewTableItem (id x y : Z) : TableItem :=
  mkTableItem (mkCard "" "" "") (mkChip "" 0) "" "" id x y.

(** Field assignments through the embedded structs. *)
Definition set_Side (s : string) (ti : TableItem) : TableItem :=
  mkTableItem (mkCard (Suit (TI_Card ti)) (Rank (TI_Card ti)) s)
              (TI_Chip ti) (Class ti) (OwnerID ti) (ID ti) (X ti) (Y ti).

Definition set_Rank (r : string) (ti : TableItem) : TableItem :=
  mkTableItem (mkCard (Suit (TI_Card ti)) r (Side (TI_Card ti)))
              (TI_Chip ti) (Class ti) (OwnerID ti) (ID ti) (X ti) (Y ti).

Definition set_Suit (s : string) (ti : TableItem) : TableItem :=
  mkTableItem (mkCard s (Rank (TI_Card ti)) (Side (TI_Card ti)))
              (TI_Chip ti) (Class ti) (OwnerID ti) (ID ti) (X ti) (Y ti).

Definition set_OwnerID (o : string) (ti : TableItem) : TableItem :=
  mkTableItem (TI_Card ti) (TI_Chip ti) (Class ti) o (ID ti) (X ti) (Y ti).

Definition set_X (x : Z) (ti : TableItem) : TableItem :=
  mkTableItem (TI_Card ti) (TI_Chip ti) (Class ti) (OwnerID ti) (ID ti) x (Y ti).

Definition set_Y (y : Z) (ti : TableItem) : TableItem :=
  mkTableItem (TI_Card ti) (TI_Chip ti) (Class ti) (OwnerID ti) (ID ti) (X ti) y.

Definition Is (ti : TableItem) (cls : string) : bool :=
  String.eqb (Class ti) cls.

Definition IsOwnedBy (ti : TableItem) (id : UUID) : bool :=
  String.eqb (OwnerID ti) (uuid_String id).

Definition IsOwned (ti : TableItem) : bool :=
  negb (String.eqb (OwnerID ti) "").

(** [ApplyVisibilityRules]: the receiver is updated in place; here the
    updated item is the result.  Each [let] is one statement of the body. *)
Definition ApplyVisibilityRules (ti : TableItem) (curUser : User) : TableItem :=
  if negb (Is ti CardClass) then ti
  else
    let ti1 := if IsOwnedBy ti (User_ID curUser) then set_Side Face ti else ti in
    let isOwnedBySomeoneElse :=
      IsOwned ti1 && negb (IsOwnedBy ti1 (User_ID curUser)) in
    let ti2 := if isOwnedBySomeoneElse then set_Side Cover ti1 else ti1 in
    if String.eqb (Side (TI_Card ti2)) Cover
    then set_Suit BlankSuit (set_Rank "" ti2)
    else ti2.

(** ** Pushes, players, the table *)

(** Pointers are locations of the store; channels are keys of the channel
    store. *)
Abbreviation loc := nat.
Abbreviation chan := positive.

(** [type PushType string] with its three constants. *)
Definition Refresh : string := "refresh".
Definition PlayerJoined : string := "player_joined".
Definition UpdateItems : string := "update_items".

Record Push := mkPush {
  Push_Type : string;
  Push_Items : list loc;          (* []*TableItem *)
  Push_Players : gmap UUID loc;   (* map[uuid.UUID]*Player *)
}.

Definition NewPushItems (items : list loc) : Push :=
  mkPush UpdateItems items ∅.

Definition NewPushPlayerJoined (players : gmap UUID loc) (items : list loc) : Push :=
  mkPush PlayerJoined items players.

Definition NewPushRefresh : Push := mkPush Refresh [] ∅.

(** [Player]: the embedded [*User] is held by value (it is never nil for a
    seated player); [updates] is [None] for the nil channel. *)
Record Player := mkPlayer {
  P_User : User;
  P_Color : string;
  Skin : string;
  Index : Z;
  updates : option chan;
}.

Definition newPlayer (u : User) (c : string) : Player :=
  mkPlayer u c "" 0 None.

Definition set_updates (c : option chan) (p : Player) : Player :=
  mkPlayer (P_User p) (P_Color p) (Skin p) (Index p) c.

(** A channel of the store: whether it was closed, and the pushes sent on it
    so far, oldest first.  That a send on an unbuffered channel waits for its
    receiver is not modelled. *)
Record Chan := mkChan {
  ch_closed : bool;
  ch_sent : list Push;
}.

(** Modelled from the spec: the [Table] struct of pkg/poker is not in the
    sources at hand; "a unique id, an ordered/keyed collection of TableItems,
    a mapping from User id to Player (seated players)". *)
Record Table := mkTable {
  Table_ID : UUID;
  Items : list loc;
  Players : gmap UUID loc;
}.

(** What one request-handling task does to the table lock and to the
    channels, in order. *)
Inductive Event :=
| EvLock | EvUnlock        (* the exclusive lock *)
| EvRLock | EvRUnlock      (* the shared lock *)
| EvSend (c : chan) (p : Push).

Record World := mkWorld {
  w_items : gmap loc TableItem;
  w_players : gmap loc Player;
  w_chans : gmap chan Chan;
  w_table : Table;
  w_log : list string;       (* logger.Error *)
  w_trace : list Event;
}.

Definition set_w_items (h : gmap loc TableItem) (w : World) : World :=
  mkWorld h (w_players w) (w_chans w) (w_table w) (w_log w) (w_trace w).

Definition set_w_players (h : gmap loc Player) (w : World) : World :=
  mkWorld (w_items w) h (w_chans w) (w_table w) (w_log w) (w_trace w).

Definition set_w_chans (h : gmap chan Chan) (w : World) : World :=
  mkWorld (w_items w) (w_players w) h (w_table w) (w_log w) (w_trace w).

Definition set_w_log (l : list string) (w : World) : World :=
  mkWorld (w_items w) (w_players w) (w_chans w) (w_table w) l (w_trace w).

Definition set_w_trace (tr : list Event) (w : World) : World :=
  mkWorld (w_items w) (w_players w) (w_chans w) (w_table w) (w_log w) tr.

(** ** The monad of handlers: state, and panics that can be recovered *)

Inductive Outcome (A : Type) :=
| Ret (a : A)
| Panic (r : string).
Arguments Ret {A} a.
Arguments Panic {A} r.

Definition M (A : Type) : Type := World -> Outcome A * World.

#[global] Instance M_ret : MRet M := fun A a w => (Ret a, w).
#[global] Instance M_bind : MBind M := fun A B f m w =>
  match m w with
  | (Ret a, w') => f a w'
  | (Panic r, w') => (Panic r, w')
  end.
#[global] Instance M_throw : MThrow string M := fun A r w => (Panic r, w).

Definition get_world : M World := fun w => (Ret w, w).
Definition put_world (w : World) : M unit := fun _ => (Ret tt, w).

(** [defer func() { if r := recover(); r != nil { handler r } }()] around
    [body], in a function whose results are unnamed: after a recovered panic
    the function returns the zero value of its result type. *)
Definition with_recover {A} (handler : string -> M unit) (zero : A) (body : M A) : M A :=
  fun w =>
    match body w with
    | (Ret a, w') => (Ret a, w')
    | (Panic r, w') =>
        match handler r w' with
        | (Ret _, w'') => (Ret zero, w'')
        | (Panic r', w'') => (Panic r', w'')
        end
    end.

Definition nil_deref : string :=
  "runtime error: invalid memory address or nil pointer dereference".

Definition emit (e : Event) : M unit := fun w =>
  (Ret tt, set_w_trace (w_trace w ++ [e]) w).

Definition log_Error (s : string) : M unit := fun w =>
  (Ret tt, set_w_log (w_log w ++ [s]) w).

Definition get_table : M Table := fun w => (Ret (w_table w), w).

Definition load_item (l : loc) : M TableItem := fun w =>
  match w_items w !! l with
  | Some v => (Ret v, w)
  | None => (Panic nil_deref, w)
  end.

Definition store_item (l : loc) (v : TableItem) : M unit := fun w =>
  (Ret tt, set_w_items (<[l := v]> (w_items w)) w).

Definition modify_item (l : loc) (f : TableItem -> TableItem) : M unit :=
  v ← load_item l; store_item l (f v).

(** A local variable whose address is taken lives in the store, at a
    location no pointer refers to yet. *)
Definition alloc_item (v : TableItem) : M loc := fun w =>
  let l := fresh (dom (w_items w)) in
  (Ret l, set_w_items (<[l := v]> (w_items w)) w).

Definition load_player (l : loc) : M Player := fun w =>
  match w_players w !! l with
  | Some v => (Ret v, w)
  | None => (Panic nil_deref, w)
  end.

Definition store_player (l : loc) (v : Player) : M unit := fun w =>
  (Ret tt, set_w_players (<[l := v]> (w_players w)) w).

(** ** Channels *)

(** A channel no one has sent on or closed is open and empty. *)
Definition chan_state (w : World) (c : chan) : Chan :=
  default (mkChan false []) (w_chans w !! c).

Definition put_chan (c : chan) (s : Chan) : M unit := fun w =>
  (Ret tt, set_w_chans (<[c := s]> (w_chans w)) w).

(** [make(chan *Push)] *)
Definition make_chan : M chan := fun w =>
  let c := fresh (dom (w_chans w)) in
  (Ret c, set_w_chans (<[c := mkChan false []]> (w_chans w)) w).

(** [c <- push]: panics on a closed channel. *)
Definition chan_send (c : chan) (push : Push) : M unit :=
  w ← get_world;
  let s := chan_state w c in
  if ch_closed s then mthrow "send on closed channel"
  else put_chan c (mkChan false (ch_sent s ++ [push]));; emit (EvSend c push).

(** [close(c)]: panics on a closed channel. *)
Definition chan_close (c : chan) : M unit :=
  w ← get_world;
  let s := chan_state w c in
  if ch_closed s then mthrow "close of closed channel"
  else put_chan c (mkChan true (ch_sent s)).

(** The world after [push] has been sent on the open channel [c]. *)
Definition sent_on (w : World) (push : Push) (c : chan) : World :=
  set_w_trace (w_trace w ++ [EvSend c push])
    (set_w_chans
       (<[c := mkChan false (ch_sent (chan_state w c) ++ [push])]> (w_chans w)) w).

(** ** Player: Dispatch, Subscribe, Unsubscribe (poker.go) *)

(** [logger.Error.Printf("%s name=%s panic: %s", ...)] of the two recovers. *)
Definition panic_line (who name r : string) : string :=
  who +:+ " name=" +:+ name +:+ " panic: " +:+ r.

(** The result is the receiver, or nil ([None]) after a recovered panic. *)
Definition Dispatch (p : loc) (push : Push) : M (option loc) :=
  with_recover
    (fun r => pl ← load_player p;
              log_Error (panic_line "Player.Dispatch" (User_Name (P_User pl)) r))
    None
    (pl ← load_player p;
     match updates pl with
     | Some c => chan_send c push
     | None => mret tt
     end;;
     mret (Some p)).

(** The [defer] is registered only when a channel is attached; it then covers
    the rest of the body, the assignment included. *)
Definition Subscribe (p : loc) (new_updates : option chan) : M (option loc) :=
  pl ← load_player p;
  match updates pl with
  | Some old =>
      with_recover
        (fun r => pl ← load_player p;
                  log_Error (panic_line "Player.Subscribe" (User_Name (P_User pl)) r))
        None
        (chan_close old;;
         pl ← load_player p;
         store_player p (set_updates new_updates pl);;
         mret (Some p))
  | None =>
      store_player p (set_updates new_updates pl);;
      mret (Some p)
  end.

Definition Unsubscribe (p : loc) : M (option loc) :=
  pl ← load_player p;
  match updates pl with
  | Some c =>
      chan_close c;;
      pl ← load_player p;
      store_player p (set_updates None pl)
  | None => mret tt
  end;;
  mret (Some p).

Fixpoint NotifyAll (pl : list loc) (push : Push) : M unit :=
  match pl with
  | [] => mret tt
  | p :: rest => Dispatch p push;; NotifyAll rest push
  end.

(** [TableItemList.Get]: the first item with the id, or nil. *)
Fixpoint TableItemList_Get (l : list loc) (id : Z) : M (option loc) :=
  match l with
  | [] => mret None
  | it :: rest =>
      v ← load_item it;
      if ID v =? id then mret (Some it) else TableItemList_Get rest id
  end.

(** ** Errors and responses (pkg/httpx, as the handlers use it) *)

Record HttpError := NewError {
  err_code : Z;
  err_msg : string;
}.

Definition StatusOK : Z := 200.
Definition StatusBadRequest : Z := 400.
Definition StatusForbidden : Z := 403.
Definition StatusNotFound : Z := 404.

(** A Go result pair [(v, err)]. *)
Inductive Result (A : Type) :=
| Ok (a : A)
| Err (e : HttpError).
Arguments Ok {A} a.
Arguments Err {A} e.

Inductive Response :=
| Redirect (url : string)
| JSON (code : Z) (updated : loc).   (* ItemUpdatedResponse{Updated: &updated} *)

Definition maxPlayers : Z := 3.

(** ** Table transactions *)

(** Modelled from the spec: [Table.Update] of pkg/poker is not in the sources
    at hand; the exclusive update "acquires sole write access to the table,
    runs fn with direct mutation access, releases the lock on return".  What
    the closure assigns to the variables it captures is its result here. *)
Definition Update {A} (fn : M A) : M A :=
  emit EvLock;; r ← fn; emit EvUnlock;; mret r.

(** Modelled from the spec: [Table.ReadLock] of pkg/poker is not in the
    sources at hand; the shared snapshot "acquires a read-only section" around
    fn. *)
Definition ReadLock {A} (fn : M A) : M A :=
  emit EvRLock;; r ← fn; emit EvRUnlock;; mret r.

(** Modelled from the spec: [Table.OtherPlayers] of pkg/poker is not in the
    sources at hand; a "pure read returning every currently seated Player
    except user". *)
Definition OtherPlayers (u : User) : M (list loc) :=
  t ← get_table;
  mret (map_to_list (filter (fun kv => kv.1 <> User_ID u) (Players t))).*2.

(** Modelled from the spec: [TableItem.Take] of pkg/poker is not in the
    sources at hand; it "sets owner_id to user, flips orientation to the
    cover-hidden default-for-others state".  The handler dereferences its
    result, so it returns the receiver. *)
Definition Take (item : loc) (u : User) : M loc :=
  modify_item item (set_OwnerID (uuid_String (User_ID u)));;
  modify_item item (set_Side Cover);;
  mret item.

(** Modelled from the spec: [TableItem.Show] of pkg/poker is not in the
    sources at hand; it "fails forbidden unless the item is currently owned by
    user; flips orientation to face-up". *)
Definition Show (item : loc) (u : User) : M (option HttpError) :=
  ti ← load_item item;
  if IsOwnedBy ti (User_ID u)
  then store_item item (set_Side Face ti);; mret None
  else mret (Some (NewError StatusForbidden "forbidden")).

(** ** Handlers (package main)

    A handler starts where its context is built and its request decoded:
    [curUser] is [ctx.user], the table of the world is [ctx.table]. *)

Definition zero_item : TableItem := NewTableItem 0 0 0.

Definition not_at_the_table : HttpError :=
  NewError StatusForbidden "you are not at the table".

Definition item_not_found : HttpError :=
  NewError StatusNotFound "item not found".

Definition readonly_class : HttpError :=
  NewError StatusBadRequest "attempt to update readonly field .Class".

Definition table_is_full : HttpError :=
  NewError StatusForbidden "this table is full".

(** [updateItem], from the unmarshalled request body [src] on. *)
Definition updateItem (curUser : User) (src : TableItem) : M (Result loc) :=
  table ← get_table;
  match Players table !! User_ID curUser with
  | None => mret (Err not_at_the_table)
  | Some _ =>
      dest ← TableItemList_Get (Items table) (ID src);
      match dest with
      | None => mret (Err item_not_found)
      | Some dest =>
          d ← load_item dest;
          if negb (String.eqb (Class d) (Class src))
          then mret (Err readonly_class)
          else
            modify_item dest (set_X (X src));;
            modify_item dest (set_Y (Y src));;
            d ← load_item dest;
            (if negb (String.eqb (Side (TI_Card d)) (Side (TI_Card src)))
             then
               if negb (IsOwned d) || IsOwnedBy d (User_ID curUser)
               then modify_item dest (set_Side (Side (TI_Card src)))
               else mret tt
             else mret tt);;
            mret (Ok dest)
      end
  end.

(** The update as the specification words it: the proposed x and y always,
    the proposed orientation only if the stored item [d] is unowned or owned
    by the user. *)
Definition updateItem_result (curUser : User) (src d : TableItem) : TableItem :=
  let moved := set_Y (Y src) (set_X (X src) d) in
  if negb (IsOwned d) || IsOwnedBy d (User_ID curUser)
  then set_Side (Side (TI_Card src)) moved
  else moved.

Definition updateTable (curUser : User) (src : TableItem) : M (Result Response) :=
  updated ← alloc_item zero_item;
  r ← Update (
    up ← updateItem curUser src;
    match up with
    | Err e => mret (Err e)
    | Ok up =>
        v ← load_item up;
        store_item updated v;;
        notifyThem ← OtherPlayers curUser;
        mret (Ok notifyThem)
    end);
  match r with
  | Err e => mret (Err e)
  | Ok notifyThem =>
      NotifyAll notifyThem (NewPushItems [updated]);;
      mret (Ok (JSON StatusOK updated))
  end.

(** A taken item as the specification words it: owned by the user, cover
    up. *)
Definition taken_by (u : User) (d : TableItem) : TableItem :=
  set_Side Cover (set_OwnerID (uuid_String (User_ID u)) d).

(** The transaction of [takeCard]: the closure passed to [Update]. *)
Definition takeCard_tx (curUser : User) (id : Z) (updated : loc) : M (option HttpError) :=
  t ← get_table;
  match Players t !! User_ID curUser with
  | None => mret (Some not_at_the_table)
  | Some _ =>
      item ← TableItemList_Get (Items t) id;
      match item with
      | None => mret (Some item_not_found)
      | Some item =>
          taken ← Take item curUser;
          v ← load_item taken;
          store_item updated v;;
          mret None
      end
  end.

(** What [takeCard] does once the transaction has succeeded. *)
Definition takeCard_after (curUser : User) (updated : loc) : M (Result Response) :=
  modify_item updated (set_Side Face);;
  ReadLock (
    others ← OtherPlayers curUser;
    NotifyAll others (NewPushItems [updated]);;
    mret (None : option HttpError));;
  mret (Ok (JSON StatusOK updated)).

Definition takeCard (curUser : User) (id : Z) : M (Result Response) :=
  updated ← alloc_item zero_item;
  err ← Update (takeCard_tx curUser id updated);
  match err with
  | Some e => mret (Err e)
  | None => takeCard_after curUser updated
  end.

Definition showCard (curUser : User) (id : Z) : M (Result Response) :=
  updated ← alloc_item zero_item;
  r ← Update (
    t ← get_table;
    match Players t !! User_ID curUser with
    | None => mret (Err not_at_the_table)
    | Some _ =>
        item ← TableItemList_Get (Items t) id;
        match item with
        | None => mret (Err item_not_found)
        | Some item =>
            err ← Show item curUser;
            match err with
            | Some e => mret (Err e)
            | None =>
                v ← load_item item;
                store_item updated v;;
                notifyThem ← OtherPlayers curUser;
                mret (Ok notifyThem)
            end
        end
    end);
  match r with
  | Err e => mret (Err e)
  | Ok notifyThem =>
      NotifyAll notifyThem (NewPushItems [updated]);;
      mret (Ok (JSON StatusOK updated))
  end.

Definition table_url (t : Table) : string :=
  "/games/" +:+ uuid_String (Table_ID t).

Section Membership.

(** [Table.Join] and [Table.Shuffle] of pkg/poker are not in the sources at
    hand; the handlers are embedded for any implementation of them. *)
Variable Join : User -> M (list loc).
Variable Shuffle : M unit.

(** The transaction of [joinTable]; its result is what the closure leaves
    in [players], [updated] and [notifyThem]. *)
Definition joinTable_tx (curUser : User)
  : M (Result (gmap UUID loc * list loc * list loc)) :=
  t ← get_table;
  match Players t !! User_ID curUser with
  | Some _ => mret (Ok (∅, [], []))     (* hasJoined: return nil *)
  | None =>
      if Z.of_nat (size (Players t)) >=? maxPlayers
      then mret (Err table_is_full)
      else
        updated ← Join curUser;
        t ← get_table;
        notifyThem ← OtherPlayers curUser;
        mret (Ok (Players t, updated, notifyThem))
  end.

Definition joinTable (curUser : User) : M (Result Response) :=
  r ← Update (joinTable_tx curUser);
  match r with
  | Err e => mret (Err e)
  | Ok (players, updated, notifyThem) =>
      NotifyAll notifyThem (NewPushPlayerJoined players updated);;
      t ← get_table;
      mret (Ok (Redirect (table_url t)))
  end.

Definition shuffle (curUser : User) : M (Result Response) :=
  r ← Update (
    t ← get_table;
    match Players t !! User_ID curUser with
    | None => mret (Err not_at_the_table)
    | Some _ =>
        Shuffle;;
        notifyThem ← OtherPlayers curUser;
        mret (Ok notifyThem)
    end);
  match r with
  | Err e => mret (Err e)
  | Ok notifyThem =>
      NotifyAll notifyThem NewPushRefresh;;
      t ← get_table;
      mret (Ok (Redirect (table_url t)))
  end.

End Membership.

(** The subscription of [pushTableUpdates]: the channel it makes, and the
    transaction that attaches it to the caller's player. *)
Definition pushTableUpdates_subscribe (curUser : User) : M (Result chan) :=
  c ← make_chan;
  err ← Update (
    t ← get_table;
    match Players t !! User_ID curUser with
    | None => mret (Some not_at_the_table)
    | Some p => Subscribe p (Some c);; mret None
    end);
  match err with
  | Some e => mret (Err e)
  | None => mret (Ok c)
  end.

(** The exit of the push loop on [EPIPE]: [close(updates)], the player's
    field is left as it is. *)
Definition pushTableUpdates_epipe (c : chan) : M unit := chan_close c.

(** Every seated player is a player of the store. *)
Definition players_wf (w : World) : Prop :=
  map_Forall (fun (_ : UUID) (p : loc) => is_Some (w_players w !! p))
             (Players (w_table w)).

#[global] Instance players_wf_dec (w : World) : Decision (players_wf w).
Proof. unfold players_wf. apply _. Defined.

(** Every item pointer of the table is an item of the store. *)
Definition items_wf (w : World) : Prop :=
  Forall (fun it : loc => is_Some (w_items w !! it)) (Items (w_table w)).

#[global] Instance items_wf_dec (w : World) : Decision (items_wf w).
Proof. unfold items_wf. apply _. Defined.

(** The channel attached to the player at [p], if there is one, is open. *)
Definition attached_open (w : World) (p : loc) : Prop :=
  forall pl c, w_players w !! p = Some pl -> updates pl = Some c ->
               ch_closed (chan_state w c) = false.

(** ** Locks and dispatches of a trace *)

Definition is_send (e : Event) : bool :=
  match e with
  | EvSend _ _ => true
  | _ => false
  end.

(** [m] leaves the trace as it is. *)
Definition quiet {A} (m : M A) : Prop :=
  forall w, w_trace (m w).2 = w_trace w.

(** [m] adds nothing but sends to the trace. *)
Definition sends_only {A} (m : M A) : Prop :=
  forall w, exists tr,
    w_trace (m w).2 = w_trace w ++ tr /\ forallb is_send tr = true.


(** No send happens while a lock is held: [held] counts the locks the task
    holds at the head of the trace. *)
Fixpoint sends_outside_locks (held : nat) (tr : list Event) : bool :=
  match tr with
  | [] => true
  | EvLock :: tr' | EvRLock :: tr' => sends_outside_locks (S held) tr'
  | EvUnlock :: tr' | EvRUnlock :: tr' => sends_outside_locks (pred held) tr'
  | EvSend _ _ :: tr' => Nat.eqb held 0 && sends_outside_locks held tr'
  end.

(** What [m] adds to the trace, from a start with no lock held, has its
    sends outside the locks. *)
Definition lock_discipline {A} (m : M A) : Prop :=
  forall w, exists tr,
    w_trace (m w).2 = w_trace w ++ tr /\ sends_outside_locks 0 tr = true.

Definition empty_table : Table := mkTable [] [] ∅.

Definition empty_world : World := mkWorld ∅ ∅ ∅ empty_table [] [].

(** [AsCard], [AsChip], [AsDealer], [AsPlayer] of poker.go. *)
Definition AsCard (c : Card) (ti : TableItem) : TableItem :=
  mkTableItem c (TI_Chip ti) CardClass (OwnerID ti) (ID ti) (X ti) (Y ti).

Definition AsChip (c : Chip) (ti : TableItem) : TableItem :=
  mkTableItem (TI_Card ti) c ChipClass (OwnerID ti) (ID ti) (X ti) (Y ti).

Definition AsDealer (ti : TableItem) : TableItem :=
  mkTableItem (TI_Card ti) (TI_Chip ti) DealerClass (OwnerID ti) (ID ti) (X ti) (Y ti).

Definition AsPlayer (p : Player) (ti : TableItem) : TableItem :=
  mkTableItem (TI_Card ti) (TI_Chip ti) PlayerClass
              (uuid_String (User_ID (P_User p))) (ID ti) (X ti) (Y ti).

Definition Spades : string := "♠".

(** ** Return paths (package main) *)

(** [sanitizedRetpath], from the value [s] of the [ret_path] query parameter
    on; [len(s)] counts bytes, as [String.length] does. *)
Definition sanitizedRetpath (s : string) : string :=
  if negb (String.prefix "/" s) then ""
  else if (1024 <? String.length s)%nat then ""
  else s.

(** An item the filter for [u] leaves as it is. *)
Definition filtered (u : User) (v : TableItem) : Prop :=
  ApplyVisibilityRules v u = v.

(** The value of a lower-case hex digit. *)
Definition unhex (s : string) : N :=
  match String.index 0 s hextable with
  | Some n => N.of_nat n
  | None => 0%N
  end.

(** ** Recipients of a fan-out *)




(** ** Runs of update-item *)

(** The world after the update requests [reqs], one after the other, each by
    its user; a request that fails leaves the world to the next one. *)
Fixpoint run_updates (reqs : list (User * TableItem)) (w : World) : World :=
  match reqs with
  | [] => w
  | (u, src) :: rest => run_updates rest (updateItem u src w).2
  end.

(** The fields of an item no update writes. *)
Definition same_identity (v v' : TableItem) : Prop :=
  Class v' = Class v /\ OwnerID v' = OwnerID v /\ ID v' = ID v /\
  Rank (TI_Card v') = Rank (TI_Card v) /\ Suit (TI_Card v') = Suit (TI_Card v) /\
  TI_Chip v' = TI_Chip v.

(** ** Requests that fail *)



(** ** What leaves the engine: snapshots and pushes (package main) *)

(** Go errors as the export paths meet them. *)
Inductive GoError :=
| HttpErr (e : HttpError)                      (* httpx.NewError *)
| errChanClosed                                (* errors.New("channel closed") *)
| EPIPE                                        (* syscall.EPIPE *)
| OtherErr (msg : string)                      (* an error of a library *)
| Wrapped (prefix : string) (inner : GoError). (* fmt.Errorf(prefix + ": %w", inner) *)

(** [errors.Is(err, target)] for the two targets the loop asks about: the
    error itself, or one it wraps. *)
Fixpoint errors_Is_EPIPE (err : GoError) : bool :=
  match err with
  | EPIPE => true
  | Wrapped _ inner => errors_Is_EPIPE inner
  | _ => false
  end.

Fixpoint errors_Is_errChanClosed (err : GoError) : bool :=
  match err with
  | errChanClosed => true
  | Wrapped _ inner => errors_Is_errChanClosed inner
  | _ => false
  end.

Inductive GoResult (A : Type) :=
| GoOk (a : A)
| GoErr (e : GoError).
Arguments GoOk {A} a.
Arguments GoErr {A} e.

(** The loop [for _, it := range items { it.ApplyVisibilityRules(curUser) }];
    the method works on the item in place. *)
Fixpoint ApplyVisibilityRules_all (items : list loc) (curUser : User) : M unit :=
  match items with
  | [] => mret tt
  | it :: rest =>
      modify_item it (fun ti => ApplyVisibilityRules ti curUser);;
      ApplyVisibilityRules_all rest curUser
  end.

(** A message on the websocket.  A JSON message is the push as it is
    marshalled at the time of the write: its items and players by value,
    [None] for a nil pointer. *)
Inductive WireMsg :=
| TextMessage (s : string)
| PingMessage (s : string)
| JSONMessage (type : string) (items : list (option TableItem))
              (players : gmap UUID (option Player)).

(** What the viewer's loop is woken by: a receive on its channel ([None] is
    the nil a closed channel yields), or the 15 seconds timer. *)
Inductive LoopEvent :=
| Received (update : option Push)
| Tick.

(** A loop that goes on, or returns. *)
Inductive LoopStep :=
| Continue
| Return (err : GoError).

Section ExportPaths.

(** [Table.DeepCopy] of pkg/poker is not in the sources at hand;
    [encoding/json] and the websocket are libraries.  The export paths are
    embedded for any behaviour of them: [write_fails sent msg] is the error
    of writing [msg] after [sent], if the write fails. *)
Variable Table_DeepCopy : M (GoResult Table).
Variable json_Marshal_Push : Push -> M (GoResult (list Byte.byte)).
Variable json_Unmarshal_Push : list Byte.byte -> M (GoResult Push).
Variable write_fails : list WireMsg -> WireMsg -> option GoError.
Variable Error_string : GoError -> string.
Variable ctx_String : string.

(** [Push.DeepCopy]: a copy through serialisation. *)
Definition Push_DeepCopy (p : Push) : M (GoResult Push) :=
  b ← json_Marshal_Push p;
  match b with
  | GoErr err => mret (GoErr err)
  | GoOk b =>
      dest ← json_Unmarshal_Push b;
      match dest with
      | GoErr err => mret (GoErr err)
      | GoOk dest => mret (GoOk dest)
      end
  end.

(** [conn.WriteMessage] and [conn.WriteJSON]: the connection is the list of
    the messages written so far; a write that fails writes nothing. *)
Definition conn_Write (conn : list WireMsg) (msg : WireMsg)
  : list WireMsg * option GoError :=
  match write_fails conn msg with
  | Some err => (conn, Some err)
  | None => (conn ++ [msg], None)
  end.

Definition marshalled (w : World) (resp : Push) : WireMsg :=
  JSONMessage (Push_Type resp)
              ((fun l => w_items w !! l) <$> Push_Items resp)
              ((fun l => w_players w !! l) <$> Push_Players resp).

Definition conn_WriteJSON (conn : list WireMsg) (resp : Push)
  : M (list WireMsg * option GoError) :=
  w ← get_world; mret (conn_Write conn (marshalled w resp)).

Definition terminated_msg : string := "terminated by another connection".

(** [handlePush]; the connection is passed in and out. *)
Definition handlePush (curUser : User) (conn : list WireMsg) (update : option Push)
  : M (list WireMsg * option GoError) :=
  match update with
  | None =>
      let '(conn', err) := conn_Write conn (TextMessage terminated_msg) in
      match err with
      | Some err =>
          log_Error (ctx_String +:+ " conn.WriteMessage " +:+ Error_string err)
      | None => mret tt
      end;;
      mret (conn', Some errChanClosed)
  | Some update =>
      r ← Push_DeepCopy update;
      match r with
      | GoErr err => mret (conn, Some err)
      | GoOk resp =>
          ApplyVisibilityRules_all (Push_Items resp) curUser;;
          '(conn', err) ← conn_WriteJSON conn resp;
          match err with
          | Some err => mret (conn', Some (Wrapped "conn.WriteJSON" err))
          | None => mret (conn', None)
          end
      end
  end.

(** The [select] of the loop of [pushTableUpdates]: what it leaves in
    [err], and whether it has returned (with [err]) from inside. *)
Definition push_loop_select (curUser : User) (conn : list WireMsg) (ev : LoopEvent)
  : M (list WireMsg * option GoError * bool) :=
  match ev with
  | Received update =>
      '(conn', err) ← handlePush curUser conn update;
      match err with
      | Some err =>
          if errors_Is_errChanClosed err then mret (conn', Some err, true)
          else
            log_Error ("ws " +:+ ctx_String +:+ " " +:+ Error_string err);;
            mret (conn', Some err, false)
      | None => mret (conn', None, false)
      end
  | Tick =>
      let '(conn', err) := conn_Write conn (PingMessage "ping") in
      match err with
      | Some err =>
          log_Error ("ws " +:+ ctx_String +:+ " " +:+ Error_string err)
      | None => mret tt
      end;;
      mret (conn', err, false)
  end.

(** One turn of the loop, on the channel [updates] the handler made. *)
Definition push_loop_step (curUser : User) (updates : chan)
    (conn : list WireMsg) (ev : LoopEvent) : M (list WireMsg * LoopStep) :=
  '(conn', err, returned) ← push_loop_select curUser conn ev;
  match err with
  | Some err =>
      if returned : bool then mret (conn', Return err)
      else if errors_Is_EPIPE err
      then chan_close updates;; mret (conn', Return err)
      else mret (conn', Continue)
  | None => mret (conn', Continue)
  end.

(** [getTableState]: the snapshot a viewer fetches. *)
Definition getTableState (curUser : User) : M (GoResult Table) :=
  r ← ReadLock (
    t ← get_table;
    match Players t !! User_ID curUser with
    | None => mret (GoErr (HttpErr not_at_the_table))
    | Some _ => Table_DeepCopy
    end);
  match r with
  | GoErr err => mret (GoErr err)
  | GoOk tableCopy =>
      ApplyVisibilityRules_all (Items tableCopy) curUser;;
      mret (GoOk tableCopy)
  end.

End ExportPaths.

(** What the viewer [u] may not learn from the item [v]: a card of someone
    else is a cover, and a cover has no rank and no suit. *)
Definition hidden_from (u : User) (v : TableItem) : Prop :=
  Class v = CardClass ->
  (OwnerID v <> "" -> OwnerID v <> uuid_String (User_ID u) ->
   Side (TI_Card v) = Cover) /\
  (Side (TI_Card v) = Cover ->
   Rank (TI_Card v) = "" /\ Suit (TI_Card v) = BlankSuit).

(** ** Sessions and request contexts (package main) *)

(** An [*http.Request], as far as the handlers read it here: its cookies by
    name and the variables of its route. *)
Record Request := mkRequest {
  req_cookies : gmap string string;
  req_vars : gmap string string;
}.

Record session := mkSession {
  sess_UserID : UUID;
  sess_CreatedAt : Z;
  sess_Name : string;
  sess_user : option User;     (* user *poker.User, json:"-" *)
}.

(** [&session{}] *)
Definition empty_session : session := mkSession [] 0 "" None.

Definition set_sess_user (u : option User) (s : session) : session :=
  mkSession (sess_UserID s) (sess_CreatedAt s) (sess_Name s) u.

Record Context (T : Type) := mkContext {
  ctx_ctx : string;            (* the context of the request *)
  ctx_table : option T;
  ctx_user : option User;
}.
Arguments mkContext {T} _ _ _.
Arguments ctx_ctx {T} _.
Arguments ctx_table {T} _.
Arguments ctx_user {T} _.

Record contextBuilder (T : Type) := mkContextBuilder {
  b_err : option GoError;
  b_ctx : Context T;
}.
Arguments mkContextBuilder {T} _ _.
Arguments b_err {T} _.
Arguments b_ctx {T} _.

Definition StatusUnauthorized : Z := 401.

Section Sessions.

(** [encoding/base64], [encoding/json] and [uuid.Parse] are libraries: the
    session code is embedded for any behaviour of them.  What
    [json.Unmarshal] fills of a session is its three exported fields.  [T] is
    the type of a [*poker.Table], [Reply] of an [*httpx.Response].  The line
    [withTable] writes to the error log for a bad id is left out. *)
Variable base64_DecodeString : string -> GoResult (list Byte.byte).
Variable json_Unmarshal_session : list Byte.byte -> GoResult (UUID * Z * string).
Variable uuid_Parse : string -> GoResult UUID.
Variable T : Type.
Variable Reply : Type.
Variable httpx_String : Z -> Reply.

(** Modelled from the spec: the registries [poker.UserMap] and
    [poker.TableMap] are not in the sources at hand; "get(id) -> (entity,
    found)" is the lookup of a finite map. *)
Variable users : gmap UUID User.
Variable tables : gmap UUID T.

(** [session.parseFromCookie]: the session the receiver becomes. *)
Definition parseFromCookie (s : session) (v : string) : GoResult session :=
  if String.eqb v "" then GoErr (OtherErr "empty cookie")
  else
    match base64_DecodeString v with
    | GoErr err => GoErr err
    | GoOk b =>
        match json_Unmarshal_session b with
        | GoErr err => GoErr err
        | GoOk (id, created, name) => GoOk (mkSession id created name (sess_user s))
        end
    end.

Definition getUserFromSession (r : Request) : GoResult session :=
  let sess := empty_session in
  match req_cookies r !! "session" with
  | None => GoOk sess                 (* no cookie - return new empty session *)
  | Some v =>
      match parseFromCookie sess v with
      | GoErr err => GoErr err
      | GoOk sess =>
          match users !! sess_UserID sess with
          | Some u => GoOk (set_sess_user (Some u) sess)
          | None => GoOk sess
          end
      end
  end.

(** [authenticated]: the handler [f] behind the check of the session. *)
Definition authenticated (f : Request -> M (GoResult Reply)) (r : Request)
  : M (GoResult Reply) :=
  match getUserFromSession r with
  | GoErr err => mret (GoErr err)
  | GoOk sess =>
      match sess_user sess with
      | None => mret (GoOk (httpx_String StatusUnauthorized))
      | Some _ => f r
      end
  end.

Definition newContextBuilder (ctx : string) : contextBuilder T :=
  mkContextBuilder None (mkContext ctx None None).

Definition build (b : contextBuilder T) : GoResult (Context T) :=
  match b_err b with
  | Some err => GoErr err
  | None => GoOk (b_ctx b)
  end.

Definition withTable (r : Request) (idParam : string) (b : contextBuilder T)
  : contextBuilder T :=
  match b_err b with
  | Some _ => b
  | None =>
      let id := default "" (req_vars r !! idParam) in
      match uuid_Parse id with
      | GoErr _ =>
          mkContextBuilder
            (Some (HttpErr (NewError StatusBadRequest ("bad id: " +:+ id))))
            (b_ctx b)
      | GoOk tableID =>
          match tables !! tableID with
          | None =>
              mkContextBuilder
                (Some (HttpErr (NewError StatusNotFound "table not found")))
                (b_ctx b)
          | Some table =>
              mkContextBuilder (b_err b)
                (mkContext (ctx_ctx (b_ctx b)) (Some table) (ctx_user (b_ctx b)))
          end
      end
  end.

Definition withUser (r : Request) (b : contextBuilder T) : contextBuilder T :=
  match b_err b with
  | Some _ => b
  | None =>
      match getUserFromSession r with
      | GoErr err => mkContextBuilder (Some err) (b_ctx b)
      | GoOk sess =>
          mkContextBuilder (b_err b)
            (mkContext (ctx_ctx (b_ctx b)) (ctx_table (b_ctx b)) (sess_user sess))
      end
  end.

(** The context every table handler starts with:
    [newContextBuilder(ctx).withUser(s, r).withTable(s, r, "id").build()]. *)
Definition handler_context (ctx : string) (r : Request) : GoResult (Context T) :=
  build (withTable r "id" (withUser r (newContextBuilder ctx))).

End Sessions.

(** ** A table to run the handlers on *)

Definition alice : User := mkUser (repeat x0a 16) "alice".
Definition bob : User := mkUser (repeat x0b 16) "bob".
Definition carol : User := mkUser (repeat x0c 16) "carol".
Definition dave : User := mkUser (repeat x0d 16) "dave".

(** Item 7: an unowned card, the ace of spades, cover up. *)
Definition card7 : TableItem :=
  AsCard (mkCard Spades "A" Cover) (NewTableItem 7 10 20).

Definition chip8 : TableItem :=
  AsChip (mkChip "red" 5) (NewTableItem 8 30 40).

(** Alice and Bob are seated; Bob's viewer is connected on channel 1. *)
Definition table2 : World :=
  mkWorld {[ 0%nat := card7; 1%nat := chip8 ]}
          {[ 0%nat := mkPlayer alice "#FF5733" "" 0 None;
             1%nat := mkPlayer bob "#9B59B6" "" 1 (Some 1%positive) ]}
          {[ 1%positive := mkChan false [] ]}
          (mkTable (repeat x01 16) [0%nat; 1%nat]
                   {[ User_ID alice := 0%nat; User_ID bob := 1%nat ]})
          [] [].

(** The same table once Carol has taken the third seat. *)
Definition table3 : World :=
  mkWorld (w_items table2)
          (<[ 2%nat := mkPlayer carol "#2ECC71" "" 2 None ]> (w_players table2))
          (w_chans table2)
          (mkTable (repeat x01 16) [0%nat; 1%nat]
                   (<[ User_ID carol := 2%nat ]> (Players (w_table table2))))
          [] [].

(** The table of two once Alice has taken card 7. *)
Definition table2_taken : World := (takeCard alice 7 table2).2.

(** Bob's proposal for card 7: moved to (99, 98) and turned face up. *)
Definition bob_moves_card7 : TableItem :=
  set_Y 98 (set_X 99 (set_Side Face card7)).

(** A [Join] to run [joinTable] with where it is not reached. *)
Definition Join_nothing (u : User) : M (list loc) := mret [].

(** A deep copy to run the export paths with: every item is copied to a
    fresh location of the store. *)
Fixpoint copy_items (l : list loc) : M (list loc) :=
  match l with
  | [] => mret []
  | x :: rest =>
      v ← load_item x;
      x' ← alloc_item v;
      rest' ← copy_items rest;
      mret (x' :: rest')
  end.

Definition copy_table : M (GoResult Table) :=
  t ← get_table;
  items ← copy_items (Items t);
  mret (GoOk (mkTable (Table_ID t) items (Players t))).

(** A serialisation and a deserialisation to run [handlePush] with: what
    comes back is a push of one item, a copy of item 0. *)
Definition marshal_nothing (p : Push) : M (GoResult (list Byte.byte)) :=
  mret (GoOk []).

Definition unmarshal_item0 (b : list Byte.byte) : M (GoResult Push) :=
  items ← copy_items [0%nat];
  mret (GoOk (NewPushItems items)).

(** A connection whose writes succeed, and one whose peer is gone. *)
Definition writes_ok (sent : list WireMsg) (msg : WireMsg) : option GoError :=
  None.

Definition peer_gone (sent : list WireMsg) (msg : WireMsg) : option GoError :=
  Some (Wrapped "write tcp" EPIPE).

Definition say_error (e : GoError) : string := "error".

(** Libraries to run the session code with: a cookie decodes to Alice's
    session unless it is "garbage", and "t" is the id of the one table. *)
Definition sample_base64 (v : string) : GoResult (list Byte.byte) :=
  if String.eqb v "garbage" then GoErr (OtherErr "illegal base64 data")
  else GoOk [].

Definition sample_json_session (b : list Byte.byte) : GoResult (UUID * Z * string) :=
  GoOk (User_ID alice, 0, "alice").

Definition sample_uuid_Parse (s : string) : GoResult UUID :=
  if String.eqb s "t" then GoOk (repeat x01 16)
  else GoErr (OtherErr "invalid UUID").

Definition alice_request : Request :=
  mkRequest {[ "session" := "c2Vzc2lvbg" ]} {[ "id" := "t" ]}.

Definition anonymous_request : Request :=
  mkRequest ∅ {[ "id" := "t" ]}.

Definition sample_users : gmap UUID User := {[ User_ID alice := alice ]}.

Definition sample_tables : gmap UUID nat := {[ repeat x01 16 := 0%nat ]}.

(** * Properties *)

(** ** The visibility filter *)

Section Visibility.

Lemma uuid_String_nonempty (u : UUID) : uuid_String u <> "".
Proof.
  unfold uuid_String.
  destruct (hex_Encode (slice 0 4 u)); simpl; discriminate.
Qed.

Lemma string_length_app (s1 s2 : string) :
  String.length (s1 +:+ s2) = (String.length s1 + String.length s2)%nat.
Proof. induction s1 as [|c s1 IH]; simpl; [reflexivity | now rewrite IH]. Qed.

Lemma hex_digit_hi_length (b : Byte.byte) :
  String.length (hex_digit (N.shiftr (Byte.to_N b) 4)) = 1%nat.
Proof. destruct b; reflexivity. Qed.

Lemma hex_digit_lo_length (b : Byte.byte) :
  String.length (hex_digit (N.land (Byte.to_N b) 15)) = 1%nat.
Proof. destruct b; reflexivity. Qed.

Lemma hex_Encode_length (src : list Byte.byte) :
  String.length (hex_Encode src) = (2 * length src)%nat.
Proof.
  induction src as [|v rest IH]; [reflexivity|].
  cbn [hex_Encode length].
  rewrite !string_length_app, hex_digit_hi_length, hex_digit_lo_length, IH.
  lia.
Qed.

(** A UUID prints as 36 characters. *)
Lemma uuid_String_length (u : UUID) :
  length u = 16%nat -> String.length (uuid_String u) = 36%nat.
Proof.
  intros H. unfold uuid_String, slice.
  rewrite !string_length_app, !hex_Encode_length, !length_take, !length_drop, H.
  reflexivity.
Qed.

Lemma IsOwnedBy_IsOwned ti id : IsOwnedBy ti id = true -> IsOwned ti = true.
Proof.
  unfold IsOwnedBy, IsOwned. intros H%String.eqb_eq.
  rewrite H. apply negb_true_iff, String.eqb_neq, uuid_String_nonempty.
Qed.


Lemma IsOwnedBy_set_Side s ti id : IsOwnedBy (set_Side s ti) id = IsOwnedBy ti id.
Proof. reflexivity. Qed.

Lemma IsOwned_set_Side s ti : IsOwned (set_Side s ti) = IsOwned ti.
Proof. reflexivity. Qed.

(** The filter, by the three cases of ownership of a card. *)
Lemma ApplyVisibilityRules_mine ti viewer :
  Is ti CardClass = true -> IsOwnedBy ti (User_ID viewer) = true ->
  ApplyVisibilityRules ti viewer = set_Side Face ti.
Proof.
  intros Hc Ho. unfold ApplyVisibilityRules.
  rewrite Hc, Ho. cbv zeta. cbv beta iota delta [negb].
  rewrite IsOwnedBy_set_Side, Ho, andb_false_r. reflexivity.
Qed.

Lemma ApplyVisibilityRules_theirs ti viewer :
  Is ti CardClass = true -> IsOwned ti = true ->
  IsOwnedBy ti (User_ID viewer) = false ->
  ApplyVisibilityRules ti viewer =
  set_Suit BlankSuit (set_Rank "" (set_Side Cover ti)).
Proof.
  intros Hc Ho Hn. unfold ApplyVisibilityRules.
  rewrite Hc. cbv zeta. rewrite Hn. cbv beta iota delta [negb].
  rewrite Hn, Ho. reflexivity.
Qed.

Lemma ApplyVisibilityRules_unowned ti viewer :
  Is ti CardClass = true -> IsOwned ti = false ->
  ApplyVisibilityRules ti viewer =
  if String.eqb (Side (TI_Card ti)) Cover
  then set_Suit BlankSuit (set_Rank "" ti) else ti.
Proof.
  intros Hc Ho. unfold ApplyVisibilityRules.
  destruct (IsOwnedBy ti (User_ID viewer)) eqn:Hb.
  - apply IsOwnedBy_IsOwned in Hb. congruence.
  - rewrite Hc. cbv zeta. cbv beta iota delta [negb]. rewrite Ho.
    reflexivity.
Qed.

(** C1: the filter leaves an item that is not a card as it is; a card the
    viewer owns comes out face up with its rank and suit; a card owned by
    someone else (a non-empty owner id that is not the viewer's) comes out
    as a cover with blank rank and suit, whatever side is stored; and a
    filtered card whose side is cover has blank rank and suit. *)
Theorem ApplyVisibilityRules_spec (ti : TableItem) (viewer : User) :
  let out := ApplyVisibilityRules ti viewer in
  (Class ti <> CardClass -> out = ti) /\
  (Class ti = CardClass -> OwnerID ti = uuid_String (User_ID viewer) ->
   Side (TI_Card out) = Face /\
   Rank (TI_Card out) = Rank (TI_Card ti) /\
   Suit (TI_Card out) = Suit (TI_Card ti)) /\
  (Class ti = CardClass -> OwnerID ti <> "" ->
   OwnerID ti <> uuid_String (User_ID viewer) ->
   Side (TI_Card out) = Cover /\
   Rank (TI_Card out) = "" /\ Suit (TI_Card out) = BlankSuit) /\
  (Class ti = CardClass -> Side (TI_Card out) = Cover ->
   Rank (TI_Card out) = "" /\ Suit (TI_Card out) = BlankSuit).
Proof.
  cbv zeta. split; [| split; [| split]].
  - intros Hc. unfold ApplyVisibilityRules, Is.
    apply String.eqb_neq in Hc. rewrite Hc. reflexivity.
  - intros Hc%String.eqb_eq Ho%String.eqb_eq.
    rewrite ApplyVisibilityRules_mine by assumption.
    repeat split.
  - intros Hc%String.eqb_eq Ho%String.eqb_neq Hn%String.eqb_neq.
    rewrite ApplyVisibilityRules_theirs; [repeat split | exact Hc | | exact Hn].
    unfold IsOwned. now rewrite Ho.
  - intros Hc%String.eqb_eq. fold (Is ti CardClass) in Hc.
    destruct (IsOwnedBy ti (User_ID viewer)) eqn:Hb.
    { rewrite ApplyVisibilityRules_mine by assumption. discriminate. }
    destruct (IsOwned ti) eqn:Ho.
    { rewrite ApplyVisibilityRules_theirs by assumption. repeat split. }
    rewrite ApplyVisibilityRules_unowned by assumption.
    destruct (String.eqb (Side (TI_Card ti)) Cover) eqn:Hs; [repeat split|].
    intros Hs'. apply String.eqb_neq in Hs. contradiction.
Qed.

(** C6: filtering twice for the same viewer is filtering once. *)
Theorem ApplyVisibilityRules_idempotent (ti : TableItem) (viewer : User) :
  ApplyVisibilityRules (ApplyVisibilityRules ti viewer) viewer =
  ApplyVisibilityRules ti viewer.
Proof.
  destruct (Is ti CardClass) eqn:Hc.
  2: { unfold ApplyVisibilityRules at 2 3. rewrite Hc. simpl.
       unfold ApplyVisibilityRules. rewrite Hc. reflexivity. }
  destruct (IsOwnedBy ti (User_ID viewer)) eqn:Hb.
  { rewrite (ApplyVisibilityRules_mine ti) by assumption.
    rewrite ApplyVisibilityRules_mine; [reflexivity | exact Hc | exact Hb]. }
  destruct (IsOwned ti) eqn:Ho.
  { rewrite (ApplyVisibilityRules_theirs ti) by assumption.
    rewrite ApplyVisibilityRules_theirs; [reflexivity | exact Hc | exact Ho | exact Hb]. }
  rewrite (ApplyVisibilityRules_unowned ti) by assumption.
  destruct (String.eqb (Side (TI_Card ti)) Cover) eqn:Hs.
  - rewrite ApplyVisibilityRules_unowned; [| exact Hc | exact Ho].
    cbn [set_Suit set_Rank TI_Card Side]. rewrite Hs. reflexivity.
  - rewrite ApplyVisibilityRules_unowned; [| exact Hc | exact Ho].
    rewrite Hs. reflexivity.
Qed.

Lemma ApplyVisibilityRules_spec_witness :
  (let mine := set_OwnerID (uuid_String (User_ID alice)) card7 in
   Side (TI_Card (ApplyVisibilityRules mine alice)) = Face /\
   Rank (TI_Card (ApplyVisibilityRules mine alice)) = "A" /\
   Suit (TI_Card (ApplyVisibilityRules mine alice)) = Spades) /\
  (let theirs := set_Side Face (set_OwnerID (uuid_String (User_ID alice)) card7) in
   Side (TI_Card (ApplyVisibilityRules theirs bob)) = Cover /\
   Rank (TI_Card (ApplyVisibilityRules theirs bob)) = "" /\
   Suit (TI_Card (ApplyVisibilityRules theirs bob)) = BlankSuit) /\
  ApplyVisibilityRules chip8 bob = chip8.
Proof.
  split; [| split].
  - apply (ApplyVisibilityRules_spec
             (set_OwnerID (uuid_String (User_ID alice)) card7) alice);
      reflexivity.
  - apply (ApplyVisibilityRules_spec
             (set_Side Face (set_OwnerID (uuid_String (User_ID alice)) card7)) bob);
      [reflexivity | vm_compute; discriminate | vm_compute; discriminate].
  - apply (ApplyVisibilityRules_spec chip8 bob). vm_compute; discriminate.
Defined.

End Visibility.


(** ** Running the monad *)

Section Running.

Lemma run_bind {A B} (m : M A) (f : A -> M B) (w : World) :
  (m ≫= f) w =
  match m w with
  | (Ret a, w') => f a w'
  | (Panic r, w') => (Panic r, w')
  end.
Proof. reflexivity. Qed.

Lemma run_bind_ret {A B} (m : M A) (f : A -> M B) (w w' : World) (a : A) :
  m w = (Ret a, w') -> (m ≫= f) w = f a w'.
Proof. intros H. rewrite run_bind, H. reflexivity. Qed.

Lemma run_load_item l v w :
  w_items w !! l = Some v -> load_item l w = (Ret v, w).
Proof. intros H. unfold load_item. rewrite H. reflexivity. Qed.

Lemma run_modify_item l f v w :
  w_items w !! l = Some v ->
  modify_item l f w = (Ret tt, set_w_items (<[l := f v]> (w_items w)) w).
Proof.
  intros H. unfold modify_item.
  rewrite (run_bind_ret _ _ _ _ _ (run_load_item _ _ _ H)). reflexivity.
Qed.

Lemma run_load_player l v w :
  w_players w !! l = Some v -> load_player l w = (Ret v, w).
Proof. intros H. unfold load_player. rewrite H. reflexivity. Qed.

Lemma set_Side_same s ti : Side (TI_Card ti) = s -> set_Side s ti = ti.
Proof. intros <-. destruct ti as [[] ? ? ? ? ? ?]; reflexivity. Qed.

(** [Get] reads the store and leaves the world as it is. *)
Lemma TableItemList_Get_world l id w :
  (TableItemList_Get l id w).2 = w.
Proof.
  induction l as [|it rest IH]; [reflexivity|].
  simpl. rewrite run_bind. unfold load_item.
  destruct (w_items w !! it) as [v|]; [|reflexivity].
  destruct (ID v =? id); [reflexivity | exact IH].
Qed.

(** What [Get] finds is a pointer of the list, to an item with the id. *)
Lemma TableItemList_Get_Some l id w it :
  (TableItemList_Get l id w).1 = Ret (Some it) ->
  it ∈ l /\ exists v, w_items w !! it = Some v /\ ID v = id.
Proof.
  induction l as [|x rest IH]; [discriminate|].
  simpl. rewrite run_bind. unfold load_item.
  destruct (w_items w !! x) as [v|] eqn:Hx; [|discriminate].
  destruct (ID v =? id) eqn:Hid.
  - intros [= <-]. split; [left|]. exists v. split; [exact Hx | lia].
  - intros H. destruct (IH H) as [Hin Hv]. split; [now right | exact Hv].
Qed.

(** Without an item of that id, [Get] returns nil. *)
Lemma TableItemList_Get_None l id w :
  (forall it, it ∈ l -> exists v, w_items w !! it = Some v /\ ID v <> id) ->
  TableItemList_Get l id w = (Ret None, w).
Proof.
  induction l as [|x rest IH]; intros H; [reflexivity|].
  simpl. rewrite run_bind.
  destruct (H x) as (v & Hv & Hid); [left|].
  rewrite (run_load_item _ _ _ Hv).
  destruct (ID v =? id) eqn:E; [lia|].
  apply IH. intros it Hit. apply H. now right.
Qed.

Lemma run_Update {A} (fn : M A) (a : A) (w0 w1 : World) :
  fn (set_w_trace (w_trace w0 ++ [EvLock]) w0) = (Ret a, w1) ->
  Update fn w0 = (Ret a, set_w_trace (w_trace w1 ++ [EvUnlock]) w1).
Proof.
  intros H. unfold Update. rewrite run_bind. unfold emit at 1.
  rewrite run_bind, H. reflexivity.
Qed.

Lemma run_ReadLock {A} (fn : M A) (a : A) (w0 w1 : World) :
  fn (set_w_trace (w_trace w0 ++ [EvRLock]) w0) = (Ret a, w1) ->
  ReadLock fn w0 = (Ret a, set_w_trace (w_trace w1 ++ [EvRUnlock]) w1).
Proof.
  intros H. unfold ReadLock. rewrite run_bind. unfold emit at 1.
  rewrite run_bind, H. reflexivity.
Qed.

End Running.

(** ** update-item *)

Section UpdateItem.

Variables (w : World) (curUser : User) (src : TableItem).

Lemma updateItem_not_seated :
  Players (w_table w) !! User_ID curUser = None ->
  updateItem curUser src w = (Ret (Err not_at_the_table), w).
Proof. intros H. unfold updateItem. rewrite run_bind. simpl. rewrite H. reflexivity. Qed.

Variables (p dest : loc) (d : TableItem).
Hypothesis Hseat : Players (w_table w) !! User_ID curUser = Some p.
Hypothesis Hget :
  TableItemList_Get (Items (w_table w)) (ID src) w = (Ret (Some dest), w).
Hypothesis Hd : w_items w !! dest = Some d.

Lemma updateItem_class_differs :
  Class d <> Class src ->
  updateItem curUser src w =
  (Ret (Err readonly_class), w).
Proof.
  intros Hc. unfold updateItem. rewrite run_bind. simpl. rewrite Hseat.
  rewrite (run_bind_ret _ _ _ _ _ Hget).
  rewrite (run_bind_ret _ _ _ _ _ (run_load_item _ _ _ Hd)).
  apply String.eqb_neq in Hc. rewrite Hc. reflexivity.
Qed.

Lemma updateItem_same_class :
  Class d = Class src ->
  updateItem curUser src w =
  (Ret (Ok dest),
   set_w_items (<[dest := updateItem_result curUser src d]> (w_items w)) w).
Proof.
  intros Hc. unfold updateItem. rewrite run_bind. simpl. rewrite Hseat.
  rewrite (run_bind_ret _ _ _ _ _ Hget).
  rewrite (run_bind_ret _ _ _ _ _ (run_load_item _ _ _ Hd)).
  apply String.eqb_eq in Hc. rewrite Hc. simpl.
  erewrite run_bind_ret; [| apply run_modify_item; exact Hd].
  erewrite run_bind_ret;
    [| apply run_modify_item; simpl; apply lookup_insert_eq].
  erewrite run_bind_ret; [| apply run_load_item; simpl; apply lookup_insert_eq].
  unfold updateItem_result. cbv zeta.
  change (IsOwned (set_Y (Y src) (set_X (X src) d))) with (IsOwned d).
  change (IsOwnedBy (set_Y (Y src) (set_X (X src) d)) (User_ID curUser))
    with (IsOwnedBy d (User_ID curUser)).
  change (Side (TI_Card (set_Y (Y src) (set_X (X src) d))))
    with (Side (TI_Card d)).
  destruct (String.eqb (Side (TI_Card d)) (Side (TI_Card src))) eqn:Hs;
    destruct (negb (IsOwned d) || IsOwnedBy d (User_ID curUser)) eqn:Hown;
    cbn [negb].
  - rewrite run_bind. apply String.eqb_eq in Hs.
    rewrite set_Side_same by exact Hs.
    unfold set_w_items; simpl. now rewrite insert_insert_eq.
  - rewrite run_bind. unfold set_w_items; simpl. now rewrite insert_insert_eq.
  - erewrite run_bind_ret;
      [| apply run_modify_item; simpl; apply lookup_insert_eq].
    unfold set_w_items; simpl. now rewrite !insert_insert_eq.
  - rewrite run_bind. unfold set_w_items; simpl. now rewrite insert_insert_eq.
Qed.

End UpdateItem.



(** ** join *)

Section JoinTable.

Variable Join : User -> M (list loc).
Variables (w : World) (curUser : User).

Lemma joinTable_tx_full :
  (3 <= size (Players (w_table w)))%nat ->
  Players (w_table w) !! User_ID curUser = None ->
  joinTable_tx Join curUser w = (Ret (Err table_is_full), w).
Proof.
  intros Hfull Hnot. unfold joinTable_tx. rewrite run_bind. simpl.
  rewrite Hnot. unfold maxPlayers.
  destruct (Z.of_nat (size (Players (w_table w))) >=? 3) eqn:E; [reflexivity | lia].
Qed.


End JoinTable.

(** C4: at a table whose three seats are taken, the join of a user who is
    not seated fails with the table-full error; players, seats, items and
    channels are as before, and all the request leaves behind is the taking
    and the release of the exclusive lock. *)
Theorem joinTable_full (Join : User -> M (list loc)) (w : World) (curUser : User) :
  size (Players (w_table w)) = 3%nat ->
  Players (w_table w) !! User_ID curUser = None ->
  joinTable Join curUser w =
  (Ret (Err table_is_full), set_w_trace (w_trace w ++ [EvLock; EvUnlock]) w).
Proof.
  intros Hsize Hnot. unfold joinTable.
  erewrite run_bind_ret.
  2: { apply run_Update. apply joinTable_tx_full; simpl; [lia | exact Hnot]. }
  unfold set_w_trace; simpl. now rewrite <- app_assoc.
Qed.

Lemma joinTable_full_witness :
  joinTable Join_nothing dave table3 =
  (Ret (Err table_is_full), set_w_trace [EvLock; EvUnlock] table3).
Proof.
  apply (joinTable_full Join_nothing table3 dave); reflexivity.
Defined.



(** ** Dispatch *)

Section DispatchFacts.

Variables (w : World) (p : loc) (pl : Player) (push : Push).
Hypothesis Hp : w_players w !! p = Some pl.

Lemma Dispatch_detached :
  updates pl = None -> Dispatch p push w = (Ret (Some p), w).
Proof.
  intros Hu. unfold Dispatch, with_recover.
  rewrite (run_bind_ret _ _ _ _ _ (run_load_player _ _ _ Hp)).
  rewrite Hu. reflexivity.
Qed.

Lemma Dispatch_open c :
  updates pl = Some c -> ch_closed (chan_state w c) = false ->
  Dispatch p push w = (Ret (Some p), sent_on w push c).
Proof.
  intros Hu Hc. unfold Dispatch, with_recover.
  rewrite (run_bind_ret _ _ _ _ _ (run_load_player _ _ _ Hp)).
  rewrite Hu, run_bind. unfold chan_send. rewrite run_bind. simpl.
  rewrite Hc. reflexivity.
Qed.

Lemma Dispatch_closed c :
  updates pl = Some c -> ch_closed (chan_state w c) = true ->
  Dispatch p push w =
  (Ret None,
   set_w_log (w_log w ++ [panic_line "Player.Dispatch" (User_Name (P_User pl))
                                     "send on closed channel"]) w).
Proof.
  intros Hu Hc. unfold Dispatch, with_recover.
  rewrite (run_bind_ret _ _ _ _ _ (run_load_player _ _ _ Hp)).
  rewrite Hu, run_bind. unfold chan_send. rewrite run_bind. simpl.
  rewrite Hc. simpl.
  rewrite (run_bind_ret _ _ _ _ _ (run_load_player _ _ _ Hp)). reflexivity.
Qed.

(** Whatever the channel, [Dispatch] returns; it touches neither items,
    players nor the table. *)
Lemma Dispatch_returns :
  exists r w',
    Dispatch p push w = (Ret r, w') /\
    w_items w' = w_items w /\ w_players w' = w_players w /\
    w_table w' = w_table w.
Proof.
  destruct (updates pl) as [c|] eqn:Hu.
  - destruct (ch_closed (chan_state w c)) eqn:Hc.
    + rewrite (Dispatch_closed c Hu Hc). eauto 6.
    + rewrite (Dispatch_open c Hu Hc). eauto 6.
  - rewrite (Dispatch_detached Hu). eauto 6.
Qed.

End DispatchFacts.

Lemma chan_state_sent_on w push c :
  chan_state (sent_on w push c) c = mkChan false (ch_sent (chan_state w c) ++ [push]).
Proof. unfold chan_state, sent_on. simpl. now rewrite lookup_insert_eq. Qed.

Lemma chan_state_sent_on_ne w push c c' :
  c <> c' -> chan_state (sent_on w push c) c' = chan_state w c'.
Proof. intros H. unfold chan_state, sent_on. simpl. now rewrite lookup_insert_ne. Qed.

(** C7: on a player with a channel attached, [Dispatch] puts the event on
    that channel, after what was sent before; with no channel attached it
    does nothing at all: nothing is queued and nothing is logged; and when
    the attached channel has been closed, the panic of the send does not
    reach the caller: [Dispatch] returns, and the panic is in the error log.
    In every case [Dispatch] returns normally. *)
Theorem Dispatch_spec (w : World) (p : loc) (pl : Player) (push : Push) :
  w_players w !! p = Some pl ->
  (updates pl = None -> Dispatch p push w = (Ret (Some p), w)) /\
  (forall c, updates pl = Some c -> ch_closed (chan_state w c) = false ->
     exists w',
       Dispatch p push w = (Ret (Some p), w') /\
       chan_state w' c = mkChan false (ch_sent (chan_state w c) ++ [push])%list /\
       w_log w' = w_log w) /\
  (forall c, updates pl = Some c -> ch_closed (chan_state w c) = true ->
     exists w',
       Dispatch p push w = (Ret None, w') /\
       w_log w' = (w_log w ++ [panic_line "Player.Dispatch" (User_Name (P_User pl))
                                          "send on closed channel"])%list /\
       w_chans w' = w_chans w) /\
  (exists r w', Dispatch p push w = (Ret r, w')).
Proof.
  intros Hp. split; [| split; [| split]].
  - now apply Dispatch_detached with (pl := pl).
  - intros c Hu Hc. exists (sent_on w push c). split; [| split].
    + now apply Dispatch_open with (pl := pl).
    + apply chan_state_sent_on.
    + reflexivity.
  - intros c Hu Hc. eexists. split; [| split].
    + now apply Dispatch_closed with (pl := pl) (c := c).
    + reflexivity.
    + reflexivity.
  - destruct (Dispatch_returns w p pl push Hp) as (r & w' & H & _). eauto.
Qed.

Lemma Dispatch_spec_witness :
  Dispatch 0%nat NewPushRefresh table2 = (Ret (Some 0%nat), table2) /\
  (exists w',
     Dispatch 1%nat NewPushRefresh table2 = (Ret (Some 1%nat), w') /\
     chan_state w' 1%positive = mkChan false [NewPushRefresh]) /\
  (exists w',
     Dispatch 1%nat NewPushRefresh (pushTableUpdates_epipe 1%positive table2).2 =
     (Ret None, w') /\
     w_log w' = ["Player.Dispatch name=bob panic: send on closed channel"]).
Proof.
  split; [| split].
  - apply (Dispatch_spec table2 0%nat (mkPlayer alice "#FF5733" "" 0 None));
      reflexivity.
  - destruct (Dispatch_spec table2 1%nat
                (mkPlayer bob "#9B59B6" "" 1 (Some 1%positive)) NewPushRefresh)
      as (_ & H & _); [reflexivity|].
    destruct (H 1%positive) as (w' & Hrun & Hc & _); [reflexivity | reflexivity |].
    exists w'. split; [exact Hrun | exact Hc].
  - destruct (Dispatch_spec (pushTableUpdates_epipe 1%positive table2).2 1%nat
                (mkPlayer bob "#9B59B6" "" 1 (Some 1%positive)) NewPushRefresh)
      as (_ & _ & H & _); [reflexivity|].
    destruct (H 1%positive) as (w' & Hrun & Hlog & _); [reflexivity | reflexivity |].
    exists w'. split; [exact Hrun | exact Hlog].
Defined.

(** ** NotifyAll and OtherPlayers *)

Section Notify.

Lemma NotifyAll_returns (pl : list loc) (push : Push) (w : World) :
  (forall p, p ∈ pl -> is_Some (w_players w !! p)) ->
  exists w',
    NotifyAll pl push w = (Ret tt, w') /\
    w_items w' = w_items w /\ w_players w' = w_players w /\
    w_table w' = w_table w.
Proof.
  revert w. induction pl as [|p rest IH]; intros w Hwf.
  - exists w. repeat split.
  - destruct (Hwf p) as [v Hv]; [left|].
    destruct (Dispatch_returns w p v push Hv) as (r & w1 & Hrun & Hi & Hpl & Ht).
    destruct (IH w1) as (w2 & Hrun2 & Hi2 & Hpl2 & Ht2).
    { intros q Hq. rewrite Hpl. apply Hwf. now right. }
    exists w2. simpl. rewrite (run_bind_ret _ _ _ _ _ Hrun).
    repeat split; congruence.
Qed.

Lemma OtherPlayers_run (u : User) (w : World) :
  OtherPlayers u w =
  (Ret (map_to_list (filter (fun kv => kv.1 <> User_ID u) (Players (w_table w)))).*2, w).
Proof. reflexivity. Qed.

Lemma OtherPlayers_seated (u : User) (w : World) (p : loc) :
  p ∈ (map_to_list (filter (fun kv => kv.1 <> User_ID u) (Players (w_table w)))).*2 ->
  exists k, k <> User_ID u /\ Players (w_table w) !! k = Some p.
Proof.
  intros H. apply list_elem_of_fmap in H as ([k q] & -> & H).
  apply elem_of_map_to_list in H.
  apply map_lookup_filter_Some in H as [H1 H2]. eauto.
Qed.

End Notify.

(** ** take-item *)

Section TakeCard.

(** [Get] gives the same answer in a store that has all the items of the
    one it ran in. *)
Lemma TableItemList_Get_extend (l : list loc) (id : Z) (w w1 : World) r :
  (forall i v, w_items w !! i = Some v -> w_items w1 !! i = Some v) ->
  TableItemList_Get l id w = (Ret r, w) ->
  TableItemList_Get l id w1 = (Ret r, w1).
Proof.
  intros Hext. induction l as [|x rest IH]; simpl.
  - intros [= <-]. reflexivity.
  - rewrite !run_bind. unfold load_item at 1.
    destruct (w_items w !! x) as [v|] eqn:Hx; [|discriminate].
    rewrite (run_load_item _ _ _ (Hext _ _ Hx)).
    destruct (ID v =? id); [intros [= <-]; reflexivity | exact IH].
Qed.

Lemma fresh_not_stored (w : World) (l : loc) (v : TableItem) :
  w_items w !! l = Some v -> l <> fresh (dom (w_items w)).
Proof.
  intros H E. apply (is_fresh (dom (w_items w))).
  rewrite <- E. apply elem_of_dom. eauto.
Qed.

Variables (w : World) (curUser : User) (id : Z) (p : loc).
Hypothesis Hseat : Players (w_table w) !! User_ID curUser = Some p.

Let u : loc := fresh (dom (w_items w)).
Let wa : World := set_w_items (<[u := zero_item]> (w_items w)) w.
Let wb : World := set_w_trace (w_trace w ++ [EvLock]) wa.

Lemma wb_extends i v : w_items w !! i = Some v -> w_items wb !! i = Some v.
Proof.
  intros H. simpl. rewrite lookup_insert_ne; [exact H|].
  intros E. apply (fresh_not_stored w i v H). now rewrite <- E.
Qed.

Lemma takeCard_tx_not_found :
  TableItemList_Get (Items (w_table w)) id w = (Ret None, w) ->
  takeCard_tx curUser id u wb = (Ret (Some item_not_found), wb).
Proof.
  intros Hget. unfold takeCard_tx. rewrite run_bind. simpl.
  rewrite Hseat.
  rewrite (run_bind_ret _ _ _ _ _
             (TableItemList_Get_extend _ _ w wb _ wb_extends Hget)).
  reflexivity.
Qed.

Lemma takeCard_not_found :
  TableItemList_Get (Items (w_table w)) id w = (Ret None, w) ->
  takeCard curUser id w =
  (Ret (Err item_not_found), set_w_trace (w_trace w ++ [EvLock; EvUnlock]) wa).
Proof.
  intros Hget. unfold takeCard. rewrite run_bind. unfold alloc_item.
  erewrite run_bind_ret.
  2: { apply run_Update. apply takeCard_tx_not_found. exact Hget. }
  unfold set_w_trace; simpl. now rewrite <- app_assoc.
Qed.

Variables (l : loc) (d : TableItem).
Hypothesis Hget :
  TableItemList_Get (Items (w_table w)) id w = (Ret (Some l), w).
Hypothesis Hd : w_items w !! l = Some d.

(** The store when the transaction is over: the item is taken, and the
    local [updated] holds a copy of it. *)
Let items1 : gmap loc TableItem :=
  <[u := taken_by curUser d]> (<[l := taken_by curUser d]> (w_items w)).

Lemma l_not_u : l <> u.
Proof. exact (fresh_not_stored w l d Hd). Qed.

Lemma takeCard_tx_found :
  takeCard_tx curUser id u wb = (Ret None, set_w_items items1 wb).
Proof.
  unfold takeCard_tx. rewrite run_bind. simpl. rewrite Hseat.
  rewrite (run_bind_ret _ _ _ _ _
             (TableItemList_Get_extend _ _ w wb _ wb_extends Hget)).
  unfold Take.
  erewrite run_bind_ret.
  2: { erewrite run_bind_ret; [| apply run_modify_item; apply wb_extends, Hd].
       erewrite run_bind_ret;
         [| apply run_modify_item; simpl; apply lookup_insert_eq].
       reflexivity. }
  erewrite run_bind_ret; [| apply run_load_item; simpl; apply lookup_insert_eq].
  rewrite run_bind. unfold store_item, set_w_items, items1, taken_by. simpl.
  rewrite insert_insert_eq.
  rewrite (insert_insert_ne _ l u) by exact l_not_u.
  rewrite insert_insert_eq.
  rewrite (insert_insert_ne _ u l) by (apply not_eq_sym, l_not_u).
  reflexivity.
Qed.

(** The world when the lock of the transaction has been released. *)
Let w1 : World :=
  set_w_trace (w_trace w ++ [EvLock; EvUnlock]) (set_w_items items1 w).

Lemma takeCard_Update_found :
  Update (takeCard_tx curUser id u) wa = (Ret None, w1).
Proof.
  erewrite run_Update; [| apply takeCard_tx_found].
  unfold w1, set_w_trace, set_w_items; simpl. now rewrite <- app_assoc.
Qed.

Lemma takeCard_found_eq :
  takeCard curUser id w = takeCard_after curUser u w1.
Proof.
  unfold takeCard. rewrite run_bind. unfold alloc_item.
  fold u. fold wa. now rewrite (run_bind_ret _ _ _ _ _ takeCard_Update_found).
Qed.

(** The write of [Face]: it goes to [updated], which is [u]. *)
Lemma takeCard_face_write :
  modify_item u (set_Side Face) w1 =
  (Ret tt,
   set_w_items (<[u := set_Side Face (taken_by curUser d)]> (w_items w1)) w1).
Proof. apply run_modify_item. simpl. apply lookup_insert_eq. Qed.

Lemma takeCard_after_found :
  players_wf w ->
  exists w',
    takeCard_after curUser u w1 = (Ret (Ok (JSON StatusOK u)), w') /\
    w_items w' =
      <[u := set_Side Face (taken_by curUser d)]>
        (<[l := taken_by curUser d]> (w_items w)) /\
    w_players w' = w_players w /\
    w_table w' = w_table w.
Proof.
  intros Hwf. unfold takeCard_after.
  rewrite (run_bind_ret _ _ _ _ _ takeCard_face_write).
  set (w2 := set_w_items _ w1).
  set (w3 := set_w_trace (w_trace w2 ++ [EvRLock]) w2).
  destruct (NotifyAll_returns
              (map_to_list (filter (fun kv => kv.1 <> User_ID curUser)
                              (Players (w_table w3)))).*2
              (NewPushItems [u]) w3)
    as (w4 & Hrun & Hi & Hpl & Ht).
  { intros q Hq. apply OtherPlayers_seated in Hq as (k & _ & Hk).
    exact (Hwf k q Hk). }
  eexists. split; [| split; [| split]].
  - erewrite run_bind_ret.
    2: { apply run_ReadLock. fold w3.
         rewrite (run_bind_ret _ _ _ _ _ (OtherPlayers_run curUser w3)).
         rewrite (run_bind_ret _ _ _ _ _ Hrun). reflexivity. }
    reflexivity.
  - simpl. rewrite Hi. simpl. unfold items1. now rewrite insert_insert_eq.
  - simpl. rewrite Hpl. reflexivity.
  - simpl. rewrite Ht. reflexivity.
Qed.

End TakeCard.

(** C5: for a seated user, take-item fails not-found when no item of the
    table has the id, and then the table, its players and every stored item
    are as before.  When the item is found, its stored owner becomes the
    user and its stored side is cover, the rest of it staying as it was; the
    item returned is at [u], a location that was not in the store before and
    is no item of the table, and holds a copy of the taken item (turned face
    up for the taker). *)
Theorem takeCard_spec (w : World) (curUser : User) (id : Z) (p : loc) :
  Players (w_table w) !! User_ID curUser = Some p ->
  players_wf w ->
  items_wf w ->
  let u := fresh (dom (w_items w)) in
  ((forall it, it ∈ Items (w_table w) ->
      exists v, w_items w !! it = Some v /\ ID v <> id) ->
   exists w',
     takeCard curUser id w = (Ret (Err item_not_found), w') /\
     err_code item_not_found = StatusNotFound /\
     w_table w' = w_table w /\ w_players w' = w_players w /\
     w_chans w' = w_chans w /\
     (forall i, i ∈ dom (w_items w) -> w_items w' !! i = w_items w !! i)) /\
  (forall (l : loc) (d : TableItem),
     TableItemList_Get (Items (w_table w)) id w = (Ret (Some l), w) ->
     w_items w !! l = Some d ->
     exists w' d',
       takeCard curUser id w = (Ret (Ok (JSON StatusOK u)), w') /\
       w_items w' !! l = Some d' /\
       OwnerID d' = uuid_String (User_ID curUser) /\
       Side (TI_Card d') = Cover /\
       d' = set_Side Cover (set_OwnerID (uuid_String (User_ID curUser)) d) /\
       w_items w' !! u = Some (set_Side Face d') /\
       (u ∉ dom (w_items w)) /\ u <> l /\ (u ∉ Items (w_table w')) /\
       w_table w' = w_table w /\
       (forall i, i <> l -> i <> u -> w_items w' !! i = w_items w !! i)).
Proof.
  intros Hseat Hpwf Hiwf u. split.
  - intros Hnone. eexists. split; [| split; [| split; [| split; [| split]]]].
    + eapply takeCard_not_found; [exact Hseat|].
      apply TableItemList_Get_None. exact Hnone.
    + reflexivity.
    + reflexivity.
    + reflexivity.
    + reflexivity.
    + intros i Hi. simpl. apply lookup_insert_ne.
      intros E. apply (is_fresh (dom (w_items w))). now rewrite E.
  - intros l d Hget Hd.
    destruct (takeCard_after_found w curUser l d Hpwf)
      as (w' & Hrun & Hi & Hpl & Ht).
    assert (Hlu : l <> u) by exact (l_not_u w l d Hd).
    exists w', (taken_by curUser d).
    split; [| split; [| split; [| split; [| split; [| split; [| split; [| split; [| split; [| split]]]]]]]]].
    + rewrite (takeCard_found_eq w curUser id p Hseat l d Hget Hd). exact Hrun.
    + rewrite Hi, lookup_insert_ne by (apply not_eq_sym, Hlu).
      apply lookup_insert_eq.
    + reflexivity.
    + reflexivity.
    + reflexivity.
    + rewrite Hi. apply lookup_insert_eq.
    + apply is_fresh.
    + apply not_eq_sym, Hlu.
    + rewrite Ht. intros Hin.
      destruct (proj1 (Forall_forall _ _) Hiwf u Hin) as [v Hv].
      apply (is_fresh (dom (w_items w))). apply elem_of_dom. eauto.
    + exact Ht.
    + intros i Hil Hiu. rewrite Hi.
      rewrite lookup_insert_ne by (apply not_eq_sym, Hiu).
      apply lookup_insert_ne, not_eq_sym, Hil.
Qed.

Lemma table2_players_wf : players_wf table2.
Proof. apply (bool_decide_unpack _). vm_compute. exact I. Qed.

Lemma table2_items_wf : items_wf table2.
Proof. apply (bool_decide_unpack _). vm_compute. exact I. Qed.

Lemma takeCard_spec_witness :
  (exists w',
     takeCard alice 9 table2 = (Ret (Err item_not_found), w') /\
     w_table w' = w_table table2 /\
     w_items w' !! 0%nat = Some card7) /\
  (exists w',
     takeCard alice 7 table2 = (Ret (Ok (JSON StatusOK 2%nat)), w') /\
     w_items w' !! 0%nat = Some (taken_by alice card7) /\
     w_items w' !! 2%nat = Some (set_Side Face (taken_by alice card7))).
Proof.
  destruct (takeCard_spec table2 alice 9 0%nat) as [Hnone _];
    [reflexivity | exact table2_players_wf | exact table2_items_wf |].
  destruct (takeCard_spec table2 alice 7 0%nat) as [_ Hfound];
    [reflexivity | exact table2_players_wf | exact table2_items_wf |].
  split.
  - destruct Hnone as (w' & Hrun & _ & Ht & _ & _ & Hi).
    + intros it Hit. apply list_elem_of_In in Hit.
      destruct Hit as [<- | [<- | []]]; eexists; (split; [reflexivity | discriminate]).
    + exists w'. split; [exact Hrun | split; [exact Ht |]].
      rewrite Hi; [reflexivity | vm_compute; reflexivity].
  - destruct (Hfound 0%nat card7) as (w' & d' & Hrun & Hl & _ & _ & -> & Hu & _);
      [vm_compute; reflexivity | reflexivity |].
    exists w'. split; [exact Hrun | split; [exact Hl | exact Hu]].
Defined.



(** ** Subscribe and Unsubscribe *)

Section SubscribeFacts.

Variables (w : World) (p : loc) (pl : Player).
Hypothesis Hp : w_players w !! p = Some pl.

Lemma Subscribe_detached new :
  updates pl = None ->
  Subscribe p new w =
  (Ret (Some p), set_w_players (<[p := set_updates new pl]> (w_players w)) w).
Proof.
  intros Hu. unfold Subscribe.
  rewrite (run_bind_ret _ _ _ _ _ (run_load_player _ _ _ Hp)).
  rewrite Hu. reflexivity.
Qed.

Lemma Subscribe_open old new :
  updates pl = Some old -> ch_closed (chan_state w old) = false ->
  Subscribe p new w =
  (Ret (Some p),
   set_w_players (<[p := set_updates new pl]> (w_players w))
     (set_w_chans
        (<[old := mkChan true (ch_sent (chan_state w old))]> (w_chans w)) w)).
Proof.
  intros Hu Hc. unfold Subscribe.
  rewrite (run_bind_ret _ _ _ _ _ (run_load_player _ _ _ Hp)).
  rewrite Hu. unfold with_recover, chan_close.
  rewrite !run_bind. simpl. rewrite Hc. simpl.
  erewrite run_bind_ret; [| apply run_load_player; exact Hp]. reflexivity.
Qed.

(** The close of a channel that is closed already panics; the deferred
    recover ends the call there, before the assignment. *)
Lemma Subscribe_closed old new :
  updates pl = Some old -> ch_closed (chan_state w old) = true ->
  Subscribe p new w =
  (Ret None,
   set_w_log (w_log w ++ [panic_line "Player.Subscribe" (User_Name (P_User pl))
                                     "close of closed channel"]) w).
Proof.
  intros Hu Hc. unfold Subscribe.
  rewrite (run_bind_ret _ _ _ _ _ (run_load_player _ _ _ Hp)).
  rewrite Hu. unfold with_recover, chan_close.
  rewrite !run_bind. simpl. rewrite Hc. simpl.
  rewrite (run_bind_ret _ _ _ _ _ (run_load_player _ _ _ Hp)). reflexivity.
Qed.

Lemma Unsubscribe_detached :
  updates pl = None -> Unsubscribe p w = (Ret (Some p), w).
Proof.
  intros Hu. unfold Unsubscribe.
  rewrite (run_bind_ret _ _ _ _ _ (run_load_player _ _ _ Hp)).
  rewrite Hu. reflexivity.
Qed.

Lemma Unsubscribe_open old :
  updates pl = Some old -> ch_closed (chan_state w old) = false ->
  Unsubscribe p w =
  (Ret (Some p),
   set_w_players (<[p := set_updates None pl]> (w_players w))
     (set_w_chans
        (<[old := mkChan true (ch_sent (chan_state w old))]> (w_chans w)) w)).
Proof.
  intros Hu Hc. unfold Unsubscribe.
  rewrite (run_bind_ret _ _ _ _ _ (run_load_player _ _ _ Hp)).
  rewrite Hu. unfold chan_close.
  rewrite !run_bind. simpl. rewrite Hc. simpl.
  erewrite run_bind_ret; [| apply run_load_player; exact Hp]. reflexivity.
Qed.

End SubscribeFacts.

(** With the attached channel open, as [Subscribe] and [Unsubscribe] leave
    it, a new channel supersedes the old one: the old one is closed, the new
    one attached. *)
Lemma Subscribe_supersedes (w : World) (p : loc) (pl : Player) (new : chan) :
  w_players w !! p = Some pl ->
  attached_open w p ->
  updates pl <> Some new ->
  ch_closed (chan_state w new) = false ->
  exists w',
    Subscribe p (Some new) w = (Ret (Some p), w') /\
    w_players w' !! p = Some (set_updates (Some new) pl) /\
    (forall old, updates pl = Some old -> ch_closed (chan_state w' old) = true) /\
    attached_open w' p.
Proof.
  intros Hp Hopen Hne Hnew. destruct (updates pl) as [old|] eqn:Hu.
  - rewrite (Subscribe_open w p pl Hp old (Some new) Hu (Hopen pl old Hp Hu)).
    eexists. split; [reflexivity|]. split; [| split].
    + simpl. apply lookup_insert_eq.
    + intros ? [= <-]. unfold chan_state. simpl. now rewrite lookup_insert_eq.
    + intros pl' c. simpl. rewrite lookup_insert_eq. intros [= <-] [= <-].
      unfold chan_state. simpl. rewrite lookup_insert_ne by congruence.
      exact Hnew.
  - rewrite (Subscribe_detached w p pl Hp (Some new) Hu).
    eexists. split; [reflexivity|]. split; [| split].
    + simpl. apply lookup_insert_eq.
    + discriminate.
    + intros pl' c. simpl. rewrite lookup_insert_eq. intros [= <-] [= <-].
      exact Hnew.
Qed.

Lemma Unsubscribe_detaches (w : World) (p : loc) (pl : Player) :
  w_players w !! p = Some pl ->
  attached_open w p ->
  exists w',
    Unsubscribe p w = (Ret (Some p), w') /\
    (updates <$> w_players w' !! p) = Some None /\
    (forall old, updates pl = Some old -> ch_closed (chan_state w' old) = true) /\
    attached_open w' p.
Proof.
  intros Hp Hopen. destruct (updates pl) as [old|] eqn:Hu.
  - rewrite (Unsubscribe_open w p pl Hp old Hu (Hopen pl old Hp Hu)).
    eexists. split; [reflexivity|]. split; [| split].
    + simpl. now rewrite lookup_insert_eq.
    + intros ? [= <-]. unfold chan_state. simpl. now rewrite lookup_insert_eq.
    + intros pl' c. simpl. rewrite lookup_insert_eq. intros [= <-]. discriminate.
  - rewrite (Unsubscribe_detached w p pl Hp Hu).
    eexists. split; [reflexivity|]. split; [| split].
    + now rewrite Hp, <- Hu.
    + discriminate.
    + exact Hopen.
Qed.

(** C8, where [Subscribe] falls short of it: Bob's viewer connects and is
    given channel 2; its push loop ends on a broken pipe and closes the
    channel, which stays attached; the viewer connects again and is given
    channel 3.  [Subscribe] then panics in the close of channel 2, recovers,
    and returns before the assignment: the player is still attached to the
    closed channel 2, and the new channel 3, open, is attached to no one. *)
Theorem Subscribe_after_epipe :
  let w1 := (pushTableUpdates_subscribe bob table2).2 in
  let w2 := (pushTableUpdates_epipe 2 w1).2 in
  let w3 := (pushTableUpdates_subscribe bob w2).2 in
  (pushTableUpdates_subscribe bob table2).1 = Ret (Ok 2%positive) /\
  (updates <$> w_players w1 !! 1%nat) = Some (Some 2%positive) /\
  (pushTableUpdates_subscribe bob w2).1 = Ret (Ok 3%positive) /\
  (updates <$> w_players w3 !! 1%nat) = Some (Some 2%positive) /\
  ch_closed (chan_state w3 2) = true /\
  ch_closed (chan_state w3 3) = false /\
  w_log w3 = ["Player.Subscribe name=bob panic: close of closed channel"].
Proof. vm_compute. repeat split. Qed.

(** ** Sends and locks *)

Section Quiet.

Lemma quiet_ret {A} (a : A) : quiet (mret a).
Proof. intros w. reflexivity. Qed.

Lemma quiet_throw {A} (r : string) : quiet (mthrow r : M A).
Proof. intros w. reflexivity. Qed.

Lemma quiet_bind {A B} (m : M A) (f : A -> M B) :
  quiet m -> (forall a, quiet (f a)) -> quiet (m ≫= f).
Proof.
  intros Hm Hf w. rewrite run_bind. specialize (Hm w).
  destruct (m w) as [[a|r] w']; simpl in *; [| exact Hm].
  rewrite Hf. exact Hm.
Qed.

Lemma quiet_get_table : quiet get_table.
Proof. intros w. reflexivity. Qed.

Lemma quiet_get_world : quiet get_world.
Proof. intros w. reflexivity. Qed.

Lemma quiet_load_item l : quiet (load_item l).
Proof. intros w. unfold load_item. now destruct (w_items w !! l). Qed.

Lemma quiet_store_item l v : quiet (store_item l v).
Proof. intros w. reflexivity. Qed.

Lemma quiet_alloc_item v : quiet (alloc_item v).
Proof. intros w. reflexivity. Qed.

Lemma quiet_load_player l : quiet (load_player l).
Proof. intros w. unfold load_player. now destruct (w_players w !! l). Qed.

Lemma quiet_store_player l v : quiet (store_player l v).
Proof. intros w. reflexivity. Qed.

Lemma quiet_log_Error s : quiet (log_Error s).
Proof. intros w. reflexivity. Qed.

Lemma quiet_put_chan c st : quiet (put_chan c st).
Proof. intros w. reflexivity. Qed.

End Quiet.

Create HintDb quiet.
#[local] Hint Resolve quiet_ret quiet_throw quiet_get_table quiet_get_world
  quiet_load_item quiet_store_item quiet_alloc_item quiet_load_player
  quiet_store_player quiet_log_Error quiet_put_chan : quiet.

(** Splits a goal [quiet m] along the binds and branches of [m]. *)
Ltac quiet_steps :=
  repeat first
    [ solve [auto with quiet]
    | apply quiet_bind; [| intros ?]
    | match goal with
      | |- quiet (match ?x with _ => _ end) => destruct x
      end ].

Section QuietPrograms.

Lemma quiet_modify_item l f : quiet (modify_item l f).
Proof. unfold modify_item. quiet_steps. Qed.

Lemma quiet_TableItemList_Get l id : quiet (TableItemList_Get l id).
Proof.
  induction l as [|x rest IH]; simpl; [apply quiet_ret|].
  apply quiet_bind; [apply quiet_load_item|]. intros v.
  destruct (ID v =? id); [apply quiet_ret | exact IH].
Qed.

Lemma quiet_OtherPlayers u : quiet (OtherPlayers u).
Proof. unfold OtherPlayers. quiet_steps. Qed.

Lemma quiet_Take l u : quiet (Take l u).
Proof.
  unfold Take. repeat (apply quiet_bind; [apply quiet_modify_item | intros ?]).
  apply quiet_ret.
Qed.

Lemma quiet_Show l u : quiet (Show l u).
Proof. unfold Show. quiet_steps. Qed.

Lemma quiet_updateItem u src : quiet (updateItem u src).
Proof.
  unfold updateItem. apply quiet_bind; [apply quiet_get_table | intros t].
  destruct (Players t !! User_ID u); [| apply quiet_ret].
  apply quiet_bind; [apply quiet_TableItemList_Get | intros [dest|]];
    [| apply quiet_ret].
  apply quiet_bind; [apply quiet_load_item | intros d].
  destruct (negb (String.eqb (Class d) (Class src))); [apply quiet_ret|].
  repeat (apply quiet_bind; [apply quiet_modify_item | intros ?]).
  apply quiet_bind; [apply quiet_load_item | intros d'].
  apply quiet_bind; [| intros ?; apply quiet_ret].
  destruct (negb _); [| apply quiet_ret].
  destruct (_ || _); [apply quiet_modify_item | apply quiet_ret].
Qed.

End QuietPrograms.

Section SendsOnly.

Lemma quiet_sends_only {A} (m : M A) : quiet m -> sends_only m.
Proof. intros H w. exists []. rewrite H, app_nil_r. split; reflexivity. Qed.

Lemma sends_only_bind {A B} (m : M A) (f : A -> M B) :
  sends_only m -> (forall a, sends_only (f a)) -> sends_only (m ≫= f).
Proof.
  intros Hm Hf w. rewrite run_bind. destruct (Hm w) as (tr & Htr & Hs).
  destruct (m w) as [[a|r] w']; simpl in *; [| eauto].
  destruct (Hf a w') as (tr' & Htr' & Hs').
  exists (tr ++ tr'). rewrite Htr', Htr, app_assoc. split; [reflexivity|].
  rewrite forallb_app, Hs, Hs'. reflexivity.
Qed.

Lemma sends_only_with_recover {A} (h : string -> M unit) (zero : A) (body : M A) :
  sends_only body -> (forall r, sends_only (h r)) ->
  sends_only (with_recover h zero body).
Proof.
  intros Hb Hh w. unfold with_recover. destruct (Hb w) as (tr & Htr & Hs).
  destruct (body w) as [[a|r] w']; simpl in *; [eauto|].
  destruct (Hh r w') as (tr' & Htr' & Hs').
  exists (tr ++ tr'). destruct (h r w') as [[[]|r'] w'']; simpl in *;
    rewrite Htr', Htr, app_assoc; (split; [reflexivity|]);
    rewrite forallb_app, Hs, Hs'; reflexivity.
Qed.

Lemma sends_only_chan_send c push : sends_only (chan_send c push).
Proof.
  intros w. unfold chan_send. rewrite run_bind. simpl.
  destruct (ch_closed (chan_state w c)).
  - exists []. rewrite app_nil_r. split; reflexivity.
  - exists [EvSend c push]. split; reflexivity.
Qed.

Lemma sends_only_Dispatch p push : sends_only (Dispatch p push).
Proof.
  unfold Dispatch. apply sends_only_with_recover.
  - apply sends_only_bind; [apply quiet_sends_only, quiet_load_player|].
    intros pl. apply sends_only_bind; [| intros; apply quiet_sends_only, quiet_ret].
    destruct (updates pl);
      [apply sends_only_chan_send | apply quiet_sends_only, quiet_ret].
  - intros r. apply quiet_sends_only. quiet_steps.
Qed.

Lemma sends_only_NotifyAll pl push : sends_only (NotifyAll pl push).
Proof.
  induction pl as [|p rest IH]; simpl.
  - apply quiet_sends_only, quiet_ret.
  - apply sends_only_bind; [apply sends_only_Dispatch | intros _; exact IH].
Qed.

Lemma sends_outside_locks_sends tr :
  forallb is_send tr = true -> sends_outside_locks 0 tr = true.
Proof.
  induction tr as [|e tr IH]; [reflexivity|].
  destruct e; simpl; try discriminate. exact IH.
Qed.

End SendsOnly.

(** ** The handlers that send once the lock is released *)

Section LockDiscipline.

Lemma lock_discipline_quiet_bind {A B} (m : M A) (f : A -> M B) :
  quiet m -> (forall a, lock_discipline (f a)) -> lock_discipline (m ≫= f).
Proof.
  intros Hm Hf w. rewrite run_bind. specialize (Hm w).
  destruct (m w) as [[a|r] w']; simpl in *.
  - destruct (Hf a w') as (tr & Htr & Hs). exists tr. now rewrite Htr, Hm.
  - exists []. now rewrite app_nil_r.
Qed.

(** A transaction that sends nothing, then sends with the lock released. *)
Lemma lock_discipline_Update {A B} (tx : M A) (k : A -> M B) :
  quiet tx -> (forall a, sends_only (k a)) ->
  lock_discipline (Update tx ≫= k).
Proof.
  intros Htx Hk w. unfold Update. rewrite !run_bind. unfold emit at 1.
  rewrite run_bind.
  specialize (Htx (set_w_trace (w_trace w ++ [EvLock]) w)).
  destruct (tx _) as [[a|r] w1]; simpl in *.
  - destruct (Hk a (set_w_trace (w_trace w1 ++ [EvUnlock]) w1))
      as (tr & Htr & Hs).
    exists ([EvLock; EvUnlock] ++ tr). split.
    + rewrite Htr. simpl. rewrite Htx, <- !app_assoc. reflexivity.
    + simpl. now apply sends_outside_locks_sends.
  - exists [EvLock]. split; [exact Htx | reflexivity].
Qed.

Lemma updateTable_lock_discipline u src : lock_discipline (updateTable u src).
Proof.
  unfold updateTable.
  apply lock_discipline_quiet_bind; [apply quiet_alloc_item | intros updated].
  apply lock_discipline_Update.
  - apply quiet_bind; [apply quiet_updateItem | intros [up|e]];
      [| apply quiet_ret].
    apply quiet_bind; [apply quiet_load_item | intros v].
    apply quiet_bind; [apply quiet_store_item | intros _].
    apply quiet_bind; [apply quiet_OtherPlayers | intros; apply quiet_ret].
  - intros [notifyThem|e]; [| apply quiet_sends_only, quiet_ret].
    apply sends_only_bind; [apply sends_only_NotifyAll|].
    intros _. apply quiet_sends_only, quiet_ret.
Qed.

Lemma showCard_lock_discipline u id : lock_discipline (showCard u id).
Proof.
  unfold showCard.
  apply lock_discipline_quiet_bind; [apply quiet_alloc_item | intros updated].
  apply lock_discipline_Update.
  - apply quiet_bind; [apply quiet_get_table | intros t].
    destruct (Players t !! User_ID u); [| apply quiet_ret].
    apply quiet_bind; [apply quiet_TableItemList_Get | intros [item|]];
      [| apply quiet_ret].
    apply quiet_bind; [apply quiet_Show | intros [e|]]; [apply quiet_ret|].
    apply quiet_bind; [apply quiet_load_item | intros v].
    apply quiet_bind; [apply quiet_store_item | intros _].
    apply quiet_bind; [apply quiet_OtherPlayers | intros; apply quiet_ret].
  - intros [notifyThem|e]; [| apply quiet_sends_only, quiet_ret].
    apply sends_only_bind; [apply sends_only_NotifyAll|].
    intros _. apply quiet_sends_only, quiet_ret.
Qed.

Variable Join : User -> M (list loc).
Variable Shuffle : M unit.
Hypothesis Join_quiet : forall u, quiet (Join u).
Hypothesis Shuffle_quiet : quiet Shuffle.

Lemma joinTable_lock_discipline u : lock_discipline (joinTable Join u).
Proof.
  unfold joinTable. apply lock_discipline_Update.
  - unfold joinTable_tx. apply quiet_bind; [apply quiet_get_table | intros t].
    destruct (Players t !! User_ID u); [apply quiet_ret|].
    destruct (_ >=? _); [apply quiet_ret|].
    apply quiet_bind; [apply Join_quiet | intros updated].
    apply quiet_bind; [apply quiet_get_table | intros t'].
    apply quiet_bind; [apply quiet_OtherPlayers | intros; apply quiet_ret].
  - intros [[[players updated] notifyThem]|e]; [| apply quiet_sends_only, quiet_ret].
    apply sends_only_bind; [apply sends_only_NotifyAll|].
    intros _. apply quiet_sends_only. quiet_steps.
Qed.

Lemma shuffle_lock_discipline u : lock_discipline (shuffle Shuffle u).
Proof.
  unfold shuffle. apply lock_discipline_Update.
  - apply quiet_bind; [apply quiet_get_table | intros t].
    destruct (Players t !! User_ID u); [| apply quiet_ret].
    apply quiet_bind; [apply Shuffle_quiet | intros _].
    apply quiet_bind; [apply quiet_OtherPlayers | intros; apply quiet_ret].
  - intros [notifyThem|e]; [| apply quiet_sends_only, quiet_ret].
    apply sends_only_bind; [apply sends_only_NotifyAll|].
    intros _. apply quiet_sends_only. quiet_steps.
Qed.

End LockDiscipline.

(** C2, where take-item departs from it: Alice takes card 7 at the table
    where Bob's viewer listens on channel 1.  The exclusive lock is taken
    and released, and then the push to Bob is sent between the taking and
    the release of the shared lock. *)
Theorem takeCard_sends_under_shared_lock :
  (takeCard alice 7 table2).1 = Ret (Ok (JSON StatusOK 2%nat)) /\
  w_trace (takeCard alice 7 table2).2 =
    [EvLock; EvUnlock; EvRLock; EvSend 1 (NewPushItems [2%nat]); EvRUnlock] /\
  sends_outside_locks 0 (w_trace (takeCard alice 7 table2).2) = false.
Proof. vm_compute. repeat split. Qed.

(** Take-item is the one handler without the discipline of the others. *)
Lemma takeCard_no_lock_discipline : ~ lock_discipline (takeCard alice 7).
Proof.
  intros H. destruct (H table2) as (tr & Htr & Hs).
  change (w_trace table2) with (@nil Event) in Htr. simpl app in Htr.
  rewrite <- Htr in Hs. vm_compute in Hs. discriminate.
Qed.

(** * Further properties of the code *)

(** ** Return paths *)

(** X1: the return path a redirect may use is the query value itself or
    empty; it is the query value exactly when that starts with a slash and
    has at most 1024 bytes, so that a non-empty result always starts with a
    slash and never exceeds 1024 bytes. *)
Theorem sanitizedRetpath_safe (s : string) :
  (sanitizedRetpath s = s <->
   s = "" \/ (String.prefix "/" s = true /\ (String.length s <= 1024)%nat)) /\
  (sanitizedRetpath s <> s -> sanitizedRetpath s = "") /\
  (sanitizedRetpath s <> "" ->
   exists rest, sanitizedRetpath s = String "/" rest /\
                (String.length (sanitizedRetpath s) <= 1024)%nat).
Proof.
  unfold sanitizedRetpath.
  destruct s as [|c s']; [simpl; intuition congruence|].
  destruct (String.prefix "/" (String c s')) eqn:Hp; cbn [negb].
  - destruct (1024 <? String.length (String c s'))%nat eqn:Hl.
    + apply Nat.ltb_lt in Hl. split; [| split].
      * split; [discriminate|]. intros [H | [_ H]]; [discriminate | lia].
      * reflexivity.
      * congruence.
    + apply Nat.ltb_ge in Hl. split; [| split].
      * split; [| reflexivity]. intros _. right. split; [reflexivity | exact Hl].
      * congruence.
      * intros _.
        change (String.prefix "/" (String c s'))
          with (if Ascii.ascii_dec "/" c then String.prefix "" s' else false) in Hp.
        destruct (Ascii.ascii_dec "/" c) as [<- |]; [| discriminate].
        exists s'. split; [reflexivity | exact Hl].
  - split; [| split].
    + split; [discriminate|]. intros [H | [H _]]; [discriminate | congruence].
    + reflexivity.
    + congruence.
Qed.

Lemma sanitizedRetpath_safe_witness :
  sanitizedRetpath "/games/7" = "/games/7" /\
  sanitizedRetpath "https://example.org/" = "".
Proof.
  split.
  - apply (sanitizedRetpath_safe "/games/7"). right. split; [reflexivity|].
    vm_compute. lia.
  - apply (sanitizedRetpath_safe "https://example.org/"). vm_compute. discriminate.
Defined.

(** ** More on the visibility filter *)

Lemma ApplyVisibilityRules_not_card ti viewer :
  Is ti CardClass = false -> ApplyVisibilityRules ti viewer = ti.
Proof. intros H. unfold ApplyVisibilityRules. now rewrite H. Qed.

(** The four shapes of a filtered item. *)
Lemma ApplyVisibilityRules_cases ti viewer :
  ApplyVisibilityRules ti viewer = ti \/
  ApplyVisibilityRules ti viewer = set_Side Face ti \/
  ApplyVisibilityRules ti viewer =
    set_Suit BlankSuit (set_Rank "" (set_Side Cover ti)) \/
  ApplyVisibilityRules ti viewer = set_Suit BlankSuit (set_Rank "" ti).
Proof.
  destruct (Is ti CardClass) eqn:Hc;
    [| left; now apply ApplyVisibilityRules_not_card].
  destruct (IsOwnedBy ti (User_ID viewer)) eqn:Hb;
    [right; left; now apply ApplyVisibilityRules_mine|].
  destruct (IsOwned ti) eqn:Ho;
    [right; right; left; now apply ApplyVisibilityRules_theirs|].
  rewrite ApplyVisibilityRules_unowned by assumption.
  destruct (String.eqb _ _); auto.
Qed.

(** X2: the filter touches side, rank and suit only: class, owner, id,
    position and the chip fields of the item come out as they went in; and
    it invents nothing: the rank and the suit that come out are blank or
    the stored ones. *)
Theorem ApplyVisibilityRules_frame (ti : TableItem) (viewer : User) :
  let out := ApplyVisibilityRules ti viewer in
  Class out = Class ti /\ OwnerID out = OwnerID ti /\ ID out = ID ti /\
  X out = X ti /\ Y out = Y ti /\ TI_Chip out = TI_Chip ti /\
  (Rank (TI_Card out) = "" \/ Rank (TI_Card out) = Rank (TI_Card ti)) /\
  (Suit (TI_Card out) = BlankSuit \/ Suit (TI_Card out) = Suit (TI_Card ti)).
Proof.
  cbv zeta.
  destruct (ApplyVisibilityRules_cases ti viewer) as [-> | [-> | [-> | ->]]];
    repeat split; auto.
Qed.

(** X3: what a viewer gets of a card that has an owner does not depend on
    the side that is stored: the owner gets it face up, anyone else as a
    blank cover, whichever way it lies on the table. *)
Theorem ApplyVisibilityRules_owned_any_side (ti : TableItem) (viewer : User)
    (s s' : string) :
  Class ti = CardClass -> OwnerID ti <> "" ->
  ApplyVisibilityRules (set_Side s ti) viewer =
  ApplyVisibilityRules (set_Side s' ti) viewer.
Proof.
  intros Hc%String.eqb_eq Ho%String.eqb_neq.
  assert (Hown : forall x, IsOwned (set_Side x ti) = true)
    by (intros x; unfold IsOwned; cbn; now rewrite Ho).
  destruct (IsOwnedBy ti (User_ID viewer)) eqn:Hb.
  - rewrite !ApplyVisibilityRules_mine; auto.
  - rewrite !ApplyVisibilityRules_theirs; auto.
Qed.

Lemma ApplyVisibilityRules_owned_any_side_witness :
  ApplyVisibilityRules (set_Side Face (taken_by alice card7)) bob =
  ApplyVisibilityRules (set_Side Cover (taken_by alice card7)) bob.
Proof.
  apply (ApplyVisibilityRules_owned_any_side (taken_by alice card7) bob Face Cover);
    [reflexivity | vm_compute; discriminate].
Defined.

(** X4: a card no one owns is shown as it lies: its side is kept for every
    viewer, and its rank and suit come out exactly when that side is not
    cover. *)
Theorem ApplyVisibilityRules_unowned_card (ti : TableItem) (viewer : User) :
  Class ti = CardClass -> OwnerID ti = "" ->
  Side (TI_Card (ApplyVisibilityRules ti viewer)) = Side (TI_Card ti) /\
  (Side (TI_Card ti) = Cover ->
   Rank (TI_Card (ApplyVisibilityRules ti viewer)) = "" /\
   Suit (TI_Card (ApplyVisibilityRules ti viewer)) = BlankSuit) /\
  (Side (TI_Card ti) <> Cover -> ApplyVisibilityRules ti viewer = ti).
Proof.
  intros Hc%String.eqb_eq Ho%String.eqb_eq.
  rewrite ApplyVisibilityRules_unowned;
    [| exact Hc | unfold IsOwned; now rewrite Ho].
  destruct (String.eqb (Side (TI_Card ti)) Cover) eqn:Hs.
  - apply String.eqb_eq in Hs. repeat split. congruence.
  - apply String.eqb_neq in Hs. repeat split; congruence.
Qed.

Lemma ApplyVisibilityRules_unowned_card_witness :
  Rank (TI_Card (ApplyVisibilityRules card7 bob)) = "" /\
  ApplyVisibilityRules (set_Side Face card7) bob = set_Side Face card7.
Proof.
  split.
  - apply (ApplyVisibilityRules_unowned_card card7 bob); reflexivity.
  - apply (ApplyVisibilityRules_unowned_card (set_Side Face card7) bob);
      [reflexivity | reflexivity | vm_compute; discriminate].
Defined.

(** Filtering gives an item the filter leaves alone. *)
Lemma filtered_ApplyVisibilityRules ti viewer :
  filtered viewer (ApplyVisibilityRules ti viewer).
Proof.
  unfold filtered.
  destruct (Is ti CardClass) eqn:Hc.
  2: { rewrite (ApplyVisibilityRules_not_card ti) by exact Hc.
       now apply ApplyVisibilityRules_not_card. }
  destruct (IsOwnedBy ti (User_ID viewer)) eqn:Hb.
  { rewrite (ApplyVisibilityRules_mine ti) by assumption.
    now rewrite ApplyVisibilityRules_mine. }
  destruct (IsOwned ti) eqn:Ho.
  { rewrite (ApplyVisibilityRules_theirs ti) by assumption.
    now rewrite ApplyVisibilityRules_theirs. }
  rewrite (ApplyVisibilityRules_unowned ti) by assumption.
  destruct (String.eqb (Side (TI_Card ti)) Cover) eqn:Hs.
  - rewrite ApplyVisibilityRules_unowned; [| exact Hc | exact Ho].
    cbn [set_Suit set_Rank TI_Card Side]. now rewrite Hs.
  - rewrite ApplyVisibilityRules_unowned; [| exact Hc | exact Ho].
    now rewrite Hs.
Qed.

(** What a filtered item cannot show. *)
Lemma filtered_hides viewer v :
  filtered viewer v -> Class v = CardClass ->
  (OwnerID v <> "" -> OwnerID v <> uuid_String (User_ID viewer) ->
   Side (TI_Card v) = Cover) /\
  (Side (TI_Card v) = Cover -> Rank (TI_Card v) = "" /\ Suit (TI_Card v) = BlankSuit).
Proof.
  unfold filtered. intros Hf Hc%String.eqb_eq. fold (Is v CardClass) in Hc.
  split.
  - intros Ho%String.eqb_neq Hn%String.eqb_neq.
    rewrite ApplyVisibilityRules_theirs in Hf;
      [| exact Hc | unfold IsOwned; now rewrite Ho | exact Hn].
    now rewrite <- Hf.
  - intros Hs. destruct (IsOwnedBy v (User_ID viewer)) eqn:Hb.
    { rewrite ApplyVisibilityRules_mine in Hf by assumption.
      rewrite <- Hf in Hs. discriminate. }
    destruct (IsOwned v) eqn:Ho.
    { rewrite ApplyVisibilityRules_theirs in Hf by assumption.
      now rewrite <- Hf. }
    rewrite ApplyVisibilityRules_unowned in Hf by assumption.
    apply String.eqb_eq in Hs. rewrite Hs in Hf. now rewrite <- Hf.
Qed.

(** ** Owner ids *)

Section OwnerIds.

Lemma unhex_byte (b : Byte.byte) :
  Byte.to_N b =
  (16 * unhex (hex_digit (N.shiftr (Byte.to_N b) 4)) +
   unhex (hex_digit (N.land (Byte.to_N b) 15)))%N.
Proof. destruct b; reflexivity. Qed.

Lemma hex_digit_hi_char (b : Byte.byte) :
  exists c, hex_digit (N.shiftr (Byte.to_N b) 4) = String c "".
Proof. destruct b; eexists; reflexivity. Qed.

Lemma hex_digit_lo_char (b : Byte.byte) :
  exists c, hex_digit (N.land (Byte.to_N b) 15) = String c "".
Proof. destruct b; eexists; reflexivity. Qed.

Lemma to_N_inj (a b : Byte.byte) : Byte.to_N a = Byte.to_N b -> a = b.
Proof.
  intros H. apply (f_equal Byte.of_N) in H.
  rewrite !Byte.of_to_N in H. congruence.
Qed.

Lemma hex_Encode_inj (a b : list Byte.byte) :
  hex_Encode a = hex_Encode b -> a = b.
Proof.
  revert b. induction a as [|x a IH]; intros [|y b]; cbn [hex_Encode].
  - reflexivity.
  - destruct (hex_digit_hi_char y) as [c ->]. discriminate.
  - destruct (hex_digit_hi_char x) as [c ->]. discriminate.
  - pose proof (unhex_byte x) as Hx. pose proof (unhex_byte y) as Hy.
    destruct (hex_digit_hi_char x) as [c1 E1], (hex_digit_lo_char x) as [c2 E2].
    destruct (hex_digit_hi_char y) as [d1 F1], (hex_digit_lo_char y) as [d2 F2].
    rewrite E1, E2 in *. rewrite F1, F2 in *. cbn [String.append].
    intros [= -> -> H]. f_equal; [| now apply IH].
    apply to_N_inj. congruence.
Qed.

Lemma string_app_inj (s1 t1 s2 t2 : string) :
  String.length s1 = String.length t1 ->
  s1 +:+ s2 = t1 +:+ t2 -> s1 = t1 /\ s2 = t2.
Proof.
  revert t1. induction s1 as [|c s1 IH]; intros [|d t1]; simpl;
    try discriminate.
  - auto.
  - intros [= Hl] [= -> H]. destruct (IH _ Hl H) as [-> ->]. auto.
Qed.

Lemma slices_cover (u : UUID) :
  length u = 16%nat ->
  u = slice 0 4 u ++ slice 4 6 u ++ slice 6 8 u ++ slice 8 10 u ++ slice 10 16 u.
Proof.
  intros H. do 17 (destruct u as [|? u]; try discriminate H). reflexivity.
Qed.

Lemma slice_length {A} (lo hi : nat) (u : list A) :
  (hi <= length u)%nat -> length (slice lo hi u) = (hi - lo)%nat.
Proof. intros H. unfold slice. rewrite length_take, length_drop. lia. Qed.

Lemma uuid_String_inj (u v : UUID) :
  length u = 16%nat -> length v = 16%nat ->
  uuid_String u = uuid_String v -> u = v.
Proof.
  intros Hu Hv H. unfold uuid_String in H.
  repeat match type of H with
         | _ +:+ _ = _ +:+ _ =>
             let E := fresh "E" in
             apply string_app_inj in H as [E H];
             [ try apply hex_Encode_inj in E
             | rewrite ?hex_Encode_length, ?slice_length by lia; reflexivity ]
         end.
  apply hex_Encode_inj in H.
  rewrite (slices_cover u Hu), (slices_cover v Hv). congruence.
Qed.

End OwnerIds.

(** X5: an item has one owner at most: two users whose ids both pass
    [IsOwnedBy] on the same item have the same id. *)
Theorem IsOwnedBy_unique (ti : TableItem) (a b : UUID) :
  length a = 16%nat -> length b = 16%nat ->
  IsOwnedBy ti a = true -> IsOwnedBy ti b = true -> a = b.
Proof.
  unfold IsOwnedBy. intros Ha Hb E1%String.eqb_eq E2%String.eqb_eq.
  apply uuid_String_inj; congruence.
Qed.

Lemma IsOwnedBy_unique_witness : User_ID alice = repeat x0a 16.
Proof.
  apply (IsOwnedBy_unique (taken_by alice card7) (User_ID alice) (repeat x0a 16));
    reflexivity.
Defined.

(** ** Lookup of an item by id *)

(** X6: [Get] finds the first item with the id: it returns [it] exactly when
    the list is some items of other ids, then [it] with the id, then the
    rest; ids that repeat further on are never reached. *)
Theorem TableItemList_Get_first (l : list loc) (id : Z) (w : World) (it : loc) :
  TableItemList_Get l id w = (Ret (Some it), w) <->
  exists pre post v,
    l = pre ++ it :: post /\
    w_items w !! it = Some v /\ ID v = id /\
    Forall (fun x => exists vx, w_items w !! x = Some vx /\ ID vx <> id) pre.
Proof.
  split.
  - induction l as [|x rest IH]; [discriminate|].
    simpl. rewrite run_bind. unfold load_item.
    destruct (w_items w !! x) as [vx|] eqn:Hx; [|discriminate].
    destruct (ID vx =? id) eqn:Hid.
    + intros [= <-]. exists [], rest, vx.
      repeat split; [exact Hx | lia | constructor].
    + intros H. destruct (IH H) as (pre & post & v & -> & Hv & Hi & Hpre).
      exists (x :: pre), post, v. repeat split; try assumption.
      constructor; [| exact Hpre]. exists vx. split; [exact Hx | lia].
  - intros (pre & post & v & -> & Hv & Hi & Hpre).
    induction Hpre as [|x pre (vx & Hx & Hne) _ IH]; simpl.
    + rewrite (run_bind_ret _ _ _ _ _ (run_load_item _ _ _ Hv)).
      destruct (ID v =? id) eqn:E; [reflexivity | lia].
    + rewrite (run_bind_ret _ _ _ _ _ (run_load_item _ _ _ Hx)).
      destruct (ID vx =? id) eqn:E; [lia | exact IH].
Qed.

Lemma TableItemList_Get_first_witness :
  TableItemList_Get [0%nat; 1%nat; 1%nat] 8 table2 = (Ret (Some 1%nat), table2).
Proof.
  apply (TableItemList_Get_first [0%nat; 1%nat; 1%nat] 8 table2 1%nat).
  exists [0%nat], [1%nat], chip8. repeat split.
  constructor; [| constructor]. exists card7. split; [reflexivity | discriminate].
Defined.

(** X7: [Get] returns nil exactly when no item of the list has the id,
    provided every pointer of the list is valid; on a nil pointer met before
    a match it panics. *)
Theorem TableItemList_Get_nil (l : list loc) (id : Z) (w : World) :
  (Forall (fun x => is_Some (w_items w !! x)) l ->
   (TableItemList_Get l id w = (Ret None, w) <->
    Forall (fun x => exists vx, w_items w !! x = Some vx /\ ID vx <> id) l)) /\
  (forall pre x post,
     l = pre ++ x :: post ->
     Forall (fun y => exists vy, w_items w !! y = Some vy /\ ID vy <> id) pre ->
     w_items w !! x = None ->
     TableItemList_Get l id w = (Panic nil_deref, w)).
Proof.
  split.
  - intros Hwf. split.
    + induction Hwf as [|x rest [vx Hx] _ IH]; [constructor|].
      simpl. rewrite (run_bind_ret _ _ _ _ _ (run_load_item _ _ _ Hx)).
      destruct (ID vx =? id) eqn:E; [discriminate|].
      intros H. constructor; [| now apply IH].
      exists vx. split; [exact Hx | lia].
    + intros H. apply TableItemList_Get_None. intros it Hit.
      exact (proj1 (Forall_forall _ _) H it Hit).
  - intros pre x post -> Hpre Hx.
    induction Hpre as [|y pre (vy & Hy & Hne) _ IH]; simpl.
    + rewrite run_bind. unfold load_item. now rewrite Hx.
    + rewrite (run_bind_ret _ _ _ _ _ (run_load_item _ _ _ Hy)).
      destruct (ID vy =? id) eqn:E; [lia | exact IH].
Qed.

Lemma TableItemList_Get_nil_witness :
  TableItemList_Get [0%nat; 1%nat] 9 table2 = (Ret None, table2) /\
  TableItemList_Get [0%nat; 5%nat; 1%nat] 8 table2 = (Panic nil_deref, table2).
Proof.
  destruct (TableItemList_Get_nil [0%nat; 1%nat] 9 table2) as [H _].
  destruct (TableItemList_Get_nil [0%nat; 5%nat; 1%nat] 8 table2) as [_ H'].
  split.
  - apply H.
    + repeat constructor; eexists; reflexivity.
    + repeat constructor; eexists; (split; [reflexivity | discriminate]).
  - apply (H' [0%nat] 5%nat [1%nat]); [reflexivity | | reflexivity].
    repeat constructor. exists card7. split; [reflexivity | discriminate].
Defined.

(** ** Fan-out *)

Section FanOut.




End FanOut.



(** ** Subscriptions, step by step *)

Lemma Unsubscribe_closed (w : World) (p : loc) (pl : Player) (c : chan) :
  w_players w !! p = Some pl ->
  updates pl = Some c -> ch_closed (chan_state w c) = true ->
  Unsubscribe p w = (Panic "close of closed channel", w).
Proof.
  intros Hp Hu Hc. unfold Unsubscribe.
  rewrite (run_bind_ret _ _ _ _ _ (run_load_player _ _ _ Hp)).
  rewrite Hu. unfold chan_close. rewrite !run_bind. simpl. rewrite Hc.
  reflexivity.
Qed.

(** X9: [Unsubscribe] has no recover: on a player whose attached channel
    was closed elsewhere the close panics, the panic reaches the caller, and
    the player is left attached to the closed channel; on the same player
    [Dispatch] and [Subscribe] return. *)
Theorem Unsubscribe_panics_on_closed (w : World) (p : loc) (pl : Player)
    (c : chan) (push : Push) (new : option chan) :
  w_players w !! p = Some pl ->
  updates pl = Some c -> ch_closed (chan_state w c) = true ->
  Unsubscribe p w = (Panic "close of closed channel", w) /\
  (Dispatch p push w).1 = Ret None /\
  (Subscribe p new w).1 = Ret None.
Proof.
  intros Hp Hu Hc. split; [| split].
  - now apply Unsubscribe_closed with (pl := pl) (c := c).
  - now rewrite (Dispatch_closed w p pl push Hp c Hu Hc).
  - now rewrite (Subscribe_closed w p pl Hp c new Hu Hc).
Qed.

Lemma Unsubscribe_panics_on_closed_witness :
  Unsubscribe 1%nat (pushTableUpdates_epipe 1%positive table2).2 =
  (Panic "close of closed channel", (pushTableUpdates_epipe 1%positive table2).2).
Proof.
  apply (Unsubscribe_panics_on_closed
           (pushTableUpdates_epipe 1%positive table2).2 1%nat
           (mkPlayer bob "#9B59B6" "" 1 (Some 1%positive)) 1%positive
           NewPushRefresh None); reflexivity.
Defined.

(** X10: on a player whose attached channel, if any, is open, subscribing
    the nil channel is unsubscribing: the same result and the same world. *)
Theorem Subscribe_nil_is_Unsubscribe (w : World) (p : loc) (pl : Player) :
  w_players w !! p = Some pl -> attached_open w p ->
  Subscribe p None w = Unsubscribe p w.
Proof.
  intros Hp Hopen. destruct (updates pl) as [old|] eqn:Hu.
  - rewrite (Subscribe_open w p pl Hp old None Hu (Hopen pl old Hp Hu)).
    now rewrite (Unsubscribe_open w p pl Hp old Hu (Hopen pl old Hp Hu)).
  - rewrite (Subscribe_detached w p pl Hp None Hu).
    rewrite (Unsubscribe_detached w p pl Hp Hu).
    f_equal. destruct w; unfold set_w_players; simpl in *. f_equal.
    apply insert_id. rewrite Hp. f_equal.
    destruct pl; simpl in *. now subst.
Qed.

Lemma table2_attached_open (p : loc) : attached_open table2 p.
Proof.
  intros pl c Hp Hu. simpl in Hp.
  apply lookup_insert_Some in Hp as [[_ <-] | [_ Hp]]; [discriminate|].
  apply lookup_singleton_Some in Hp as [_ <-].
  injection Hu as <-. reflexivity.
Qed.

Lemma Subscribe_nil_is_Unsubscribe_witness :
  Subscribe 1%nat None table2 = Unsubscribe 1%nat table2.
Proof.
  apply (Subscribe_nil_is_Unsubscribe table2 1%nat
           (mkPlayer bob "#9B59B6" "" 1 (Some 1%positive)));
    [reflexivity | apply table2_attached_open].
Defined.

(** X11: once unsubscribed, a player is out of reach: the channel that was
    attached is closed and keeps what was sent on it, and in the world after
    [Unsubscribe] a second [Unsubscribe] and any [Dispatch] return the
    player and change nothing. *)
Theorem Unsubscribe_then_nothing (w : World) (p : loc) (pl : Player) (push : Push) :
  w_players w !! p = Some pl -> attached_open w p ->
  exists w1,
    Unsubscribe p w = (Ret (Some p), w1) /\
    (forall old, updates pl = Some old ->
       chan_state w1 old = mkChan true (ch_sent (chan_state w old))) /\
    Unsubscribe p w1 = (Ret (Some p), w1) /\
    Dispatch p push w1 = (Ret (Some p), w1).
Proof.
  intros Hp Hopen. destruct (updates pl) as [old|] eqn:Hu.
  - rewrite (Unsubscribe_open w p pl Hp old Hu (Hopen pl old Hp Hu)).
    eexists. split; [reflexivity|].
    assert (Hp1 : w_players
                    (set_w_players (<[p:=set_updates None pl]> (w_players w))
                       (set_w_chans
                          (<[old:=mkChan true (ch_sent (chan_state w old))]>
                             (w_chans w)) w)) !! p
                  = Some (set_updates None pl))
      by (simpl; apply lookup_insert_eq).
    split; [| split].
    + intros ? [= <-]. unfold chan_state. simpl. now rewrite lookup_insert_eq.
    + now apply Unsubscribe_detached with (pl := set_updates None pl).
    + now apply Dispatch_detached with (pl := set_updates None pl).
  - rewrite (Unsubscribe_detached w p pl Hp Hu).
    eexists. split; [reflexivity|]. split; [discriminate|]. split.
    + now apply Unsubscribe_detached with (pl := pl).
    + now apply Dispatch_detached with (pl := pl).
Qed.

Lemma Unsubscribe_then_nothing_witness :
  exists w1,
    Unsubscribe 1%nat table2 = (Ret (Some 1%nat), w1) /\
    chan_state w1 1%positive = mkChan true [] /\
    Dispatch 1%nat NewPushRefresh w1 = (Ret (Some 1%nat), w1).
Proof.
  destruct (Unsubscribe_then_nothing table2 1%nat
              (mkPlayer bob "#9B59B6" "" 1 (Some 1%positive)) NewPushRefresh)
    as (w1 & Hrun & Hold & _ & Hd);
    [reflexivity | apply table2_attached_open |].
  exists w1. split; [exact Hrun | split; [| exact Hd]].
  rewrite (Hold 1%positive); reflexivity.
Defined.

(** X12: a new subscription takes over: after [Subscribe] with an open
    channel that is not the attached one, the next [Dispatch] puts its push
    on the new channel, and the old channel is closed with nothing added to
    what had been sent on it. *)
Theorem Subscribe_then_Dispatch (w : World) (p : loc) (pl : Player)
    (new : chan) (push : Push) :
  w_players w !! p = Some pl -> attached_open w p ->
  updates pl <> Some new -> ch_closed (chan_state w new) = false ->
  exists w1 w2,
    Subscribe p (Some new) w = (Ret (Some p), w1) /\
    Dispatch p push w1 = (Ret (Some p), w2) /\
    chan_state w2 new = mkChan false (ch_sent (chan_state w new) ++ [push]) /\
    (forall old, updates pl = Some old ->
       chan_state w2 old = mkChan true (ch_sent (chan_state w old))) /\
    w_log w2 = w_log w.
Proof.
  intros Hp Hopen Hne Hnew. destruct (updates pl) as [old|] eqn:Hu.
  - assert (Hon : old <> new) by congruence.
    rewrite (Subscribe_open w p pl Hp old (Some new) Hu (Hopen pl old Hp Hu)).
    set (w1 := set_w_players _ _).
    assert (Hp1 : w_players w1 !! p = Some (set_updates (Some new) pl))
      by (simpl; apply lookup_insert_eq).
    assert (Hs1 : chan_state w1 new = chan_state w new).
    { unfold chan_state, w1. simpl. now rewrite lookup_insert_ne. }
    exists w1, (sent_on w1 push new). split; [reflexivity|]. split; [| split; [| split]].
    + apply Dispatch_open with (pl := set_updates (Some new) pl);
        [exact Hp1 | reflexivity | now rewrite Hs1].
    + now rewrite chan_state_sent_on, Hs1.
    + intros ? [= <-]. rewrite chan_state_sent_on_ne by congruence.
      unfold chan_state, w1. simpl. now rewrite lookup_insert_eq.
    + reflexivity.
  - rewrite (Subscribe_detached w p pl Hp (Some new) Hu).
    set (w1 := set_w_players _ _).
    assert (Hp1 : w_players w1 !! p = Some (set_updates (Some new) pl))
      by (simpl; apply lookup_insert_eq).
    exists w1, (sent_on w1 push new). split; [reflexivity|]. split; [| split; [| split]].
    + apply Dispatch_open with (pl := set_updates (Some new) pl);
        [exact Hp1 | reflexivity | exact Hnew].
    + now rewrite chan_state_sent_on.
    + discriminate.
    + reflexivity.
Qed.

Lemma Subscribe_then_Dispatch_witness :
  exists w1 w2,
    Subscribe 1%nat (Some 2%positive) table2 = (Ret (Some 1%nat), w1) /\
    Dispatch 1%nat NewPushRefresh w1 = (Ret (Some 1%nat), w2) /\
    chan_state w2 2%positive = mkChan false [NewPushRefresh] /\
    chan_state w2 1%positive = mkChan true [].
Proof.
  destruct (Subscribe_then_Dispatch table2 1%nat
              (mkPlayer bob "#9B59B6" "" 1 (Some 1%positive)) 2%positive
              NewPushRefresh)
    as (w1 & w2 & Hs & Hd & Hnew & Hold & _);
    [reflexivity | apply table2_attached_open | discriminate | reflexivity |].
  exists w1, w2. split; [exact Hs | split; [exact Hd | split; [exact Hnew |]]].
  rewrite (Hold 1%positive); reflexivity.
Defined.

(** ** What an update can and cannot do *)

Section UpdateOutcomes.

Variables (w : World) (curUser : User) (src : TableItem).

(** [updateItem] either leaves the world alone and returns no item, or
    stores the updated item and returns its pointer. *)
Lemma updateItem_cases :
  (exists o, updateItem curUser src w = (o, w) /\
             forall dest, o <> Ret (Ok dest)) \/
  (exists dest d,
     w_items w !! dest = Some d /\ Class d = Class src /\ ID d = ID src /\
     is_Some (Players (w_table w) !! User_ID curUser) /\
     updateItem curUser src w =
     (Ret (Ok dest),
      set_w_items (<[dest := updateItem_result curUser src d]> (w_items w)) w)).
Proof.
  destruct (Players (w_table w) !! User_ID curUser) as [p|] eqn:Hseat.
  2: { left. eexists. split; [now apply updateItem_not_seated | discriminate]. }
  pose proof (TableItemList_Get_world (Items (w_table w)) (ID src) w) as Hw.
  pose proof (TableItemList_Get_Some (Items (w_table w)) (ID src) w) as Hs.
  destruct (TableItemList_Get (Items (w_table w)) (ID src) w) as [o w0] eqn:Hget.
  simpl in Hw, Hs. subst w0.
  destruct o as [[dest|]|r].
  - destruct (Hs dest eq_refl) as (_ & d & Hd & Hid).
    destruct (String.eqb (Class d) (Class src)) eqn:Hc.
    + right. exists dest, d. apply String.eqb_eq in Hc.
      repeat split; try assumption; [eauto|].
      now apply updateItem_same_class with (p := p).
    + left. apply String.eqb_neq in Hc. eexists. split.
      * now apply updateItem_class_differs with (p := p) (dest := dest) (d := d).
      * discriminate.
  - left. exists (Ret (Err item_not_found)). split; [| discriminate].
    unfold updateItem. rewrite run_bind. simpl. rewrite Hseat.
    now rewrite (run_bind_ret _ _ _ _ _ Hget).
  - left. exists (Panic r). split; [| discriminate].
    unfold updateItem. rewrite run_bind. simpl. rewrite Hseat.
    rewrite run_bind, Hget. reflexivity.
Qed.

Lemma updateItem_result_identity d :
  same_identity d (updateItem_result curUser src d).
Proof.
  unfold same_identity, updateItem_result. cbv zeta.
  destruct (negb (IsOwned d) || IsOwnedBy d (User_ID curUser)); repeat split.
Qed.

End UpdateOutcomes.

Lemma same_identity_refl v : same_identity v v.
Proof. repeat split. Qed.

Lemma same_identity_trans v1 v2 v3 :
  same_identity v1 v2 -> same_identity v2 v3 -> same_identity v1 v3.
Proof. unfold same_identity. intuition congruence. Qed.

(** One call of [updateItem]. *)
Lemma updateItem_keeps (w : World) (curUser : User) (src : TableItem) :
  let w' := (updateItem curUser src w).2 in
  (forall l v, w_items w !! l = Some v ->
               exists v', w_items w' !! l = Some v' /\ same_identity v v') /\
  dom (w_items w') = dom (w_items w) /\
  w_players w' = w_players w /\ w_chans w' = w_chans w /\
  w_table w' = w_table w /\ w_trace w' = w_trace w /\ w_log w' = w_log w.
Proof.
  cbv zeta.
  destruct (updateItem_cases w curUser src)
    as [(o & -> & _) | (dest & d & Hd & _ & _ & _ & ->)]; cbn [snd].
  - split; [| repeat split]. intros l v Hv. exists v.
    split; [exact Hv | apply same_identity_refl].
  - split; [| split; [| repeat split]].
    + intros l v Hv. simpl. destruct (decide (dest = l)) as [<- | Hne].
      * rewrite lookup_insert_eq. eexists. split; [reflexivity|].
        rewrite Hd in Hv. injection Hv as <-. apply updateItem_result_identity.
      * rewrite lookup_insert_ne by exact Hne. exists v.
        split; [exact Hv | apply same_identity_refl].
    + simpl. rewrite dom_insert_L.
      apply subseteq_union_1_L, singleton_subseteq_l, elem_of_dom. eauto.
Qed.

(** X13: class is read-only, and so are owner, id, rank, suit and the chip
    fields: after any number of update requests, by whatever users and
    whether they fail or succeed, every stored item has these fields as
    before; no item appears or disappears, and players, channels, table,
    trace and log are as before. *)
Theorem run_updates_keeps (reqs : list (User * TableItem)) (w : World) :
  let w' := run_updates reqs w in
  (forall l v, w_items w !! l = Some v ->
               exists v', w_items w' !! l = Some v' /\ same_identity v v') /\
  dom (w_items w') = dom (w_items w) /\
  w_players w' = w_players w /\ w_chans w' = w_chans w /\
  w_table w' = w_table w /\ w_trace w' = w_trace w /\ w_log w' = w_log w.
Proof.
  cbv zeta. revert w. induction reqs as [|[u src] rest IH]; intros w.
  - split; [| repeat split]. intros l v Hv. exists v.
    split; [exact Hv | apply same_identity_refl].
  - cbn [run_updates].
    destruct (updateItem_keeps w u src) as (H1 & H2 & H3 & H4 & H5 & H6 & H7).
    destruct (IH (updateItem u src w).2) as (I1 & I2 & I3 & I4 & I5 & I6 & I7).
    split; [| repeat split; congruence].
    intros l v Hv. destruct (H1 l v Hv) as (v1 & Hv1 & Hs1).
    destruct (I1 l v1 Hv1) as (v2 & Hv2 & Hs2).
    exists v2. split; [exact Hv2 | now apply same_identity_trans with v1].
Qed.

Lemma run_updates_keeps_witness :
  exists v',
    w_items (run_updates [(bob, bob_moves_card7);
                          (alice, set_Side Face card7);
                          (dave, chip8)] table2_taken) !! 0%nat = Some v' /\
    same_identity (taken_by alice card7) v'.
Proof.
  apply (run_updates_keeps [(bob, bob_moves_card7);
                            (alice, set_Side Face card7);
                            (dave, chip8)] table2_taken).
  reflexivity.
Defined.

(** X14: a failed update writes nothing: whenever [updateItem] does not
    return an item (forbidden, not found, bad request, or a panic on a nil
    pointer of the item list), the world is exactly as before. *)
Theorem updateItem_fails_clean (w w' : World) (curUser : User)
    (src : TableItem) (o : Outcome (Result loc)) :
  updateItem curUser src w = (o, w') ->
  (forall dest, o <> Ret (Ok dest)) ->
  w' = w.
Proof.
  intros Hrun Hfail.
  destruct (updateItem_cases w curUser src)
    as [(o' & H & _) | (dest & d & _ & _ & _ & _ & H)];
    rewrite H in Hrun; injection Hrun as <- <-; [reflexivity|].
  now destruct (Hfail dest).
Qed.

Lemma updateItem_fails_clean_witness :
  (updateItem bob (set_X 1 (AsChip (mkChip "red" 5) card7)) table2_taken).2 =
  table2_taken.
Proof.
  apply (updateItem_fails_clean table2_taken _ bob
           (set_X 1 (AsChip (mkChip "red" 5) card7))
           (Ret (Err readonly_class))).
  - vm_compute. reflexivity.
  - discriminate.
Defined.

(** ** Requests that fail *)

Section FailedRequests.






Variables (w : World) (curUser : User).

Let wa : World :=
  set_w_items (<[fresh (dom (w_items w)) := zero_item]> (w_items w)) w.
Let wb : World := set_w_trace (w_trace w ++ [EvLock]) wa.





Variable Join : User -> M (list loc).
Variable Shuffle : M unit.



End FailedRequests.





(** ** What leaves the engine *)

Section FilterLoop.

Variable u : User.

Lemma filtered_hidden v : filtered u v -> hidden_from u v.
Proof. intros Hf Hc. now apply filtered_hides. Qed.

Lemma ApplyVisibilityRules_all_run (items : list loc) (w : World) :
  Forall (fun l => is_Some (w_items w !! l)) items ->
  exists h,
    ApplyVisibilityRules_all items u w = (Ret tt, set_w_items h w) /\
    forall l,
      h !! l =
      if decide (l ∈ items)
      then (fun v => ApplyVisibilityRules v u) <$> w_items w !! l
      else w_items w !! l.
Proof.
  revert w. induction items as [|it rest IH]; intros w Hwf.
  - exists (w_items w). split; [now destruct w|]. intros l.
    rewrite decide_False by apply not_elem_of_nil. reflexivity.
  - apply Forall_cons in Hwf as [[v Hv] Hrest].
    set (w1 := set_w_items (<[it := ApplyVisibilityRules v u]> (w_items w)) w).
    destruct (IH w1) as (h & Hrun & Hh).
    { eapply Forall_impl; [exact Hrest|]. intros l [x Hx]. simpl.
      destruct (decide (it = l)) as [<- | Hne];
        [rewrite lookup_insert_eq | rewrite lookup_insert_ne by exact Hne]; eauto. }
    exists h. split.
    + cbn [ApplyVisibilityRules_all].
      erewrite run_bind_ret; [| apply run_modify_item; exact Hv].
      cbv beta. change (set_w_items (<[it := ApplyVisibilityRules v u]> (w_items w)) w)
        with w1.
      rewrite Hrun. reflexivity.
    + intros l. rewrite Hh. simpl.
      destruct (decide (it = l)) as [<- | Hne].
      * rewrite lookup_insert_eq, Hv.
        rewrite (decide_True (P := it ∈ it :: rest)) by left.
        destruct (decide (it ∈ rest)); [| reflexivity].
        simpl. f_equal. apply filtered_ApplyVisibilityRules.
      * rewrite lookup_insert_ne by exact Hne.
        destruct (decide (l ∈ rest)) as [Hin | Hnin].
        -- rewrite decide_True by now right. reflexivity.
        -- rewrite decide_False; [reflexivity|].
           intros [-> | ?]%elem_of_cons; [now destruct Hne | contradiction].
Qed.

Lemma ApplyVisibilityRules_all_valid (items : list loc) (w w' : World) :
  ApplyVisibilityRules_all items u w = (Ret tt, w') ->
  Forall (fun l => is_Some (w_items w !! l)) items.
Proof.
  revert w. induction items as [|it rest IH]; intros w; [constructor|].
  cbn [ApplyVisibilityRules_all]. rewrite run_bind. unfold modify_item at 1.
  rewrite run_bind. unfold load_item.
  destruct (w_items w !! it) as [v|] eqn:Hv; [| discriminate].
  cbn [store_item]. intros H. apply IH in H.
  constructor; [eauto|].
  eapply Forall_impl; [exact H|]. intros l [x Hx]. simpl in Hx.
  destruct (decide (it = l)) as [<- | Hne]; [eauto|].
  rewrite lookup_insert_ne in Hx by exact Hne. eauto.
Qed.

Lemma ApplyVisibilityRules_all_nil_pointer (items : list loc) (w : World) :
  ~ Forall (fun l => is_Some (w_items w !! l)) items ->
  exists w', ApplyVisibilityRules_all items u w = (Panic nil_deref, w').
Proof.
  revert w. induction items as [|it rest IH]; intros w Hn.
  - destruct Hn. constructor.
  - cbn [ApplyVisibilityRules_all]. rewrite run_bind. unfold modify_item at 1.
    rewrite run_bind. unfold load_item.
    destruct (w_items w !! it) as [v|] eqn:Hv; [| eauto].
    cbn [store_item]. apply IH. intros H. apply Hn.
    constructor; [eauto|].
    eapply Forall_impl; [exact H|]. intros l [x Hx]. simpl in Hx.
    destruct (decide (it = l)) as [<- | Hne]; [eauto|].
    rewrite lookup_insert_ne in Hx by exact Hne. eauto.
Qed.

(** After the loop, every listed item is filtered. *)
Lemma ApplyVisibilityRules_all_filtered (items : list loc) (w w' : World) :
  ApplyVisibilityRules_all items u w = (Ret tt, w') ->
  forall l, l ∈ items ->
            exists v, w_items w' !! l = Some v /\ filtered u v /\ hidden_from u v.
Proof.
  intros Hrun l Hl.
  pose proof (ApplyVisibilityRules_all_valid items w w' Hrun) as Hwf.
  destruct (ApplyVisibilityRules_all_run items w Hwf) as (h & Hrun' & Hh).
  rewrite Hrun in Hrun'. injection Hrun' as ->.
  destruct (proj1 (Forall_forall _ _) Hwf l Hl) as [v Hv].
  exists (ApplyVisibilityRules v u). simpl. rewrite Hh, decide_True, Hv by exact Hl.
  split; [reflexivity|].
  split; [| apply filtered_hidden]; apply filtered_ApplyVisibilityRules.
Qed.

End FilterLoop.

(** X17: the filter loop over a list of valid item pointers returns, and
    item by item: an item of the list holds afterwards its filtered value,
    once filtered however often the list names it; an item that is not on
    the list is as before; nothing else of the world changes.  On a list with
    a nil pointer the loop panics. *)
Theorem ApplyVisibilityRules_all_spec (items : list loc) (u : User) (w : World) :
  (Forall (fun l => is_Some (w_items w !! l)) items ->
   exists h,
     ApplyVisibilityRules_all items u w = (Ret tt, set_w_items h w) /\
     forall l,
       h !! l =
       if decide (l ∈ items)
       then (fun v => ApplyVisibilityRules v u) <$> w_items w !! l
       else w_items w !! l) /\
  (~ Forall (fun l => is_Some (w_items w !! l)) items ->
   exists w', ApplyVisibilityRules_all items u w = (Panic nil_deref, w')).
Proof.
  split.
  - apply ApplyVisibilityRules_all_run.
  - apply ApplyVisibilityRules_all_nil_pointer.
Qed.

Lemma ApplyVisibilityRules_all_spec_witness :
  exists h,
    ApplyVisibilityRules_all [0%nat; 1%nat; 0%nat] bob table2_taken =
    (Ret tt, set_w_items h table2_taken) /\
    h !! 0%nat = Some (ApplyVisibilityRules (taken_by alice card7) bob) /\
    h !! 2%nat = Some (set_Side Face (taken_by alice card7)).
Proof.
  destruct (ApplyVisibilityRules_all_spec [0%nat; 1%nat; 0%nat] bob table2_taken)
    as [H _].
  destruct H as (h & Hrun & Hh).
  - repeat constructor; eexists; vm_compute; reflexivity.
  - exists h. split; [exact Hrun|]. rewrite !Hh. split; reflexivity.
Defined.

(** ** The snapshot a viewer fetches *)

Section Snapshot.

Variable Table_DeepCopy : M (GoResult Table).
Variables (w : World) (curUser : User).

Lemma getTableState_not_seated :
  Players (w_table w) !! User_ID curUser = None ->
  getTableState Table_DeepCopy curUser w =
  (Ret (GoErr (HttpErr not_at_the_table)),
   set_w_trace (w_trace w ++ [EvRLock; EvRUnlock]) w).
Proof.
  intros H. unfold getTableState, ReadLock, emit. rewrite !run_bind. simpl.
  rewrite H. simpl. unfold set_w_trace. simpl. now rewrite <- app_assoc.
Qed.

Lemma getTableState_Ok tc w' :
  getTableState Table_DeepCopy curUser w = (Ret (GoOk tc), w') ->
  is_Some (Players (w_table w) !! User_ID curUser) /\
  exists w1, ApplyVisibilityRules_all (Items tc) curUser w1 = (Ret tt, w').
Proof.
  unfold getTableState. rewrite run_bind.
  destruct (ReadLock _ w) as [[[t|e]|r] w1] eqn:HR; [| discriminate | discriminate].
  rewrite run_bind.
  destruct (ApplyVisibilityRules_all (Items t) curUser w1) as [[[]|r] w2] eqn:HL;
    [| discriminate].
  intros [= <- <-]. split; [| eauto].
  revert HR. unfold ReadLock, emit. rewrite !run_bind. simpl.
  destruct (Players (w_table w) !! User_ID curUser); [eauto | discriminate].
Qed.

End Snapshot.

(** X18: the snapshot is only for the seated, and it is filtered: for a user
    who is not seated [getTableState] fails forbidden without copying
    anything; and whenever it returns a table, the user is seated and every
    item of the returned table is filtered for that user: no card of another
    owner shows its face, and no cover a rank or a suit. *)
Theorem getTableState_spec (Table_DeepCopy : M (GoResult Table)) (w : World)
    (curUser : User) :
  (Players (w_table w) !! User_ID curUser = None ->
   getTableState Table_DeepCopy curUser w =
   (Ret (GoErr (HttpErr not_at_the_table)),
    set_w_trace (w_trace w ++ [EvRLock; EvRUnlock]) w)) /\
  (forall tc w',
     getTableState Table_DeepCopy curUser w = (Ret (GoOk tc), w') ->
     is_Some (Players (w_table w) !! User_ID curUser) /\
     forall l, l ∈ Items tc ->
       exists v, w_items w' !! l = Some v /\
                 filtered curUser v /\ hidden_from curUser v).
Proof.
  split; [apply getTableState_not_seated|].
  intros tc w' H.
  destruct (getTableState_Ok Table_DeepCopy w curUser tc w' H) as (Hs & w1 & Hl).
  split; [exact Hs|]. intros l Hin.
  exact (ApplyVisibilityRules_all_filtered curUser (Items tc) w1 w' Hl l Hin).
Qed.

Lemma getTableState_spec_witness :
  (getTableState copy_table dave table2_taken).1 =
    Ret (GoErr (HttpErr not_at_the_table)) /\
  exists v,
    w_items (getTableState copy_table bob table2_taken).2 !! 3%nat = Some v /\
    hidden_from bob v.
Proof.
  destruct (getTableState_spec copy_table table2_taken dave) as [H _].
  destruct (getTableState_spec copy_table table2_taken bob) as [_ H'].
  split.
  - rewrite H; reflexivity.
  - destruct (H' (mkTable (repeat x01 16) [3%nat; 4%nat]
                          (Players (w_table table2_taken)))
                 (getTableState copy_table bob table2_taken).2) as [_ Hf].
    + vm_compute. reflexivity.
    + destruct (Hf 3%nat) as (v & Hv & _ & Hh); [left|]. eauto.
Defined.

(** ** The push loop of a viewer *)

Section PushLoop.

Variable json_Marshal_Push : Push -> M (GoResult (list Byte.byte)).
Variable json_Unmarshal_Push : list Byte.byte -> M (GoResult Push).
Variable write_fails : list WireMsg -> WireMsg -> option GoError.
Variable Error_string : GoError -> string.
Variable ctx_String : string.

#[local] Abbreviation handlePush' :=
  (handlePush json_Marshal_Push json_Unmarshal_Push write_fails
              Error_string ctx_String).
#[local] Abbreviation push_loop_step' :=
  (push_loop_step json_Marshal_Push json_Unmarshal_Push write_fails
                  Error_string ctx_String).

Variables (w : World) (curUser : User) (conn : list WireMsg).

Lemma handlePush_nil :
  handlePush' curUser conn None w =
  match write_fails conn (TextMessage terminated_msg) with
  | None =>
      (Ret (conn ++ [TextMessage terminated_msg], Some errChanClosed), w)
  | Some err =>
      (Ret (conn, Some errChanClosed),
       set_w_log (w_log w ++ [ctx_String +:+ " conn.WriteMessage "
                              +:+ Error_string err]) w)
  end.
Proof.
  unfold handlePush, conn_Write.
  destruct (write_fails conn (TextMessage terminated_msg)); reflexivity.
Qed.

(** A push that is handled without an error has been written, filtered. *)
Lemma handlePush_written update conn' w' :
  handlePush' curUser conn (Some update) w = (Ret (conn', None), w') ->
  exists resp,
    conn' = conn ++ [marshalled w' resp] /\
    forall l, l ∈ Push_Items resp ->
      exists v, w_items w' !! l = Some v /\
                filtered curUser v /\ hidden_from curUser v.
Proof.
  unfold handlePush. rewrite run_bind.
  destruct (Push_DeepCopy _ _ update w) as [[[resp|e]|r] w1];
    [| discriminate | discriminate].
  rewrite run_bind.
  destruct (ApplyVisibilityRules_all (Push_Items resp) curUser w1)
    as [[[]|r] w2] eqn:HL; [| discriminate].
  unfold conn_WriteJSON, conn_Write. rewrite !run_bind. simpl.
  destruct (write_fails conn (marshalled w2 resp)); [discriminate|].
  intros [= <- <-]. exists resp. split; [reflexivity|].
  exact (ApplyVisibilityRules_all_filtered curUser (Push_Items resp) w1 w2 HL).
Qed.

(** A push that is handled with an error has not been written. *)
Lemma handlePush_error update conn' err w' :
  handlePush' curUser conn (Some update) w = (Ret (conn', Some err), w') ->
  conn' = conn.
Proof.
  unfold handlePush. rewrite run_bind.
  destruct (Push_DeepCopy _ _ update w) as [[[resp|e]|r] w1];
    [| now intros [= <- _ _] | discriminate].
  rewrite run_bind.
  destruct (ApplyVisibilityRules_all (Push_Items resp) curUser w1)
    as [[[]|r] w2]; [| discriminate].
  unfold conn_WriteJSON, conn_Write. rewrite !run_bind. simpl.
  destruct (write_fails conn (marshalled w2 resp));
    [now intros [= <- _ _] | discriminate].
Qed.

Lemma push_loop_step_Tick (updates : chan) :
  push_loop_step' curUser updates conn Tick w =
  match write_fails conn (PingMessage "ping") with
  | None => (Ret (conn ++ [PingMessage "ping"], Continue), w)
  | Some err =>
      let w1 := set_w_log (w_log w ++ ["ws " +:+ ctx_String +:+ " "
                                       +:+ Error_string err]) w in
      if errors_Is_EPIPE err
      then
        if ch_closed (chan_state w updates)
        then (Panic "close of closed channel", w1)
        else (Ret (conn, Return err),
              set_w_chans
                (<[updates := mkChan true (ch_sent (chan_state w updates))]>
                   (w_chans w)) w1)
      else (Ret (conn, Continue), w1)
  end.
Proof.
  unfold push_loop_step, push_loop_select, conn_Write.
  destruct (write_fails conn (PingMessage "ping")) as [err|]; [| reflexivity].
  rewrite !run_bind. simpl.
  destruct (errors_Is_EPIPE err); [| reflexivity].
  unfold chan_close. rewrite !run_bind. simpl.
  change (chan_state (set_w_log _ w) updates) with (chan_state w updates).
  destruct (ch_closed (chan_state w updates)); reflexivity.
Qed.

Lemma push_loop_step_nil (updates : chan) :
  exists conn' w',
    push_loop_step' curUser updates conn (Received None) w =
    (Ret (conn', Return errChanClosed), w') /\
    w_chans w' = w_chans w /\ w_players w' = w_players w /\
    w_items w' = w_items w.
Proof.
  unfold push_loop_step, push_loop_select. rewrite !run_bind.
  rewrite handlePush_nil.
  destruct (write_fails conn (TextMessage terminated_msg));
    simpl; eexists _, _; (split; [reflexivity | repeat split]).
Qed.

End PushLoop.

(** X19: what [handlePush] writes to a viewer is filtered for that viewer.
    On the nil of a closed channel it writes the notice of termination, if
    it can, and returns the channel-closed error either way.  On a push, if
    it returns no error it has written exactly one JSON message, every item
    of which is filtered: no card of another owner shows its face, no cover a
    rank or a suit; if it returns an error it has written nothing. *)
Theorem handlePush_spec
    (json_Marshal_Push : Push -> M (GoResult (list Byte.byte)))
    (json_Unmarshal_Push : list Byte.byte -> M (GoResult Push))
    (write_fails : list WireMsg -> WireMsg -> option GoError)
    (Error_string : GoError -> string) (ctx_String : string)
    (w : World) (curUser : User) (conn : list WireMsg) :
  let handle :=
    handlePush json_Marshal_Push json_Unmarshal_Push write_fails
               Error_string ctx_String curUser conn in
  (exists conn' w',
     handle None w = (Ret (conn', Some errChanClosed), w') /\
     conn' = (match write_fails conn (TextMessage terminated_msg) with
              | None => conn ++ [TextMessage terminated_msg]
              | Some _ => conn
              end) /\
     w_items w' = w_items w /\ w_players w' = w_players w /\
     w_chans w' = w_chans w) /\
  (forall update conn' w',
     handle (Some update) w = (Ret (conn', None), w') ->
     exists type items players,
       conn' = conn ++ [JSONMessage type items players] /\
       Forall (fun o => exists v, o = Some v /\ filtered curUser v /\
                                  hidden_from curUser v) items) /\
  (forall update conn' err w',
     handle (Some update) w = (Ret (conn', Some err), w') -> conn' = conn).
Proof.
  cbv zeta. split; [| split].
  - rewrite handlePush_nil.
    destruct (write_fails conn (TextMessage terminated_msg));
      eexists _, _; (split; [reflexivity | repeat split]).
  - intros update conn' w' H.
    apply handlePush_written in H as (resp & -> & Hf).
    eexists _, _, _. split; [reflexivity|].
    apply Forall_fmap, Forall_forall. intros l Hl. simpl.
    destruct (Hf l Hl) as (v & Hv & Hfl & Hh). eauto.
  - intros update conn' err w'. apply handlePush_error.
Qed.

Lemma handlePush_spec_witness :
  exists w',
    handlePush marshal_nothing unmarshal_item0 writes_ok say_error "ctx" bob []
               (Some (NewPushItems [2%nat])) table2_taken =
    (Ret ([JSONMessage UpdateItems
             [Some (ApplyVisibilityRules (taken_by alice card7) bob)] ∅], None),
     w') /\
    hidden_from bob (ApplyVisibilityRules (taken_by alice card7) bob).
Proof.
  destruct (handlePush_spec marshal_nothing unmarshal_item0 writes_ok say_error
              "ctx" table2_taken bob []) as (_ & H & _).
  destruct (H (NewPushItems [2%nat])
              [JSONMessage UpdateItems
                 [Some (ApplyVisibilityRules (taken_by alice card7) bob)] ∅]
              (handlePush marshal_nothing unmarshal_item0 writes_ok say_error
                 "ctx" bob [] (Some (NewPushItems [2%nat])) table2_taken).2)
    as (ty & items & players & Heq & Hall).
  - vm_compute. reflexivity.
  - eexists. split; [vm_compute; reflexivity|].
    apply (app_inj_tail []) in Heq as [_ [= _ <- _]].
    apply Forall_cons in Hall as [(v & [= <-] & _ & Hh) _]. exact Hh.
Defined.

(** X20: when the viewer's loop ends.  On the nil of a closed channel it
    returns the channel-closed error and touches no channel and no player.
    On a timer tick it writes a ping and goes on; if the write fails it logs
    the error and goes on, unless the error is a broken pipe: then it closes
    its own channel and returns, and no player is changed, so that a player
    the channel is attached to stays attached to a closed channel; and if
    the channel was closed already, the close panics. *)
Theorem push_loop_step_spec
    (json_Marshal_Push : Push -> M (GoResult (list Byte.byte)))
    (json_Unmarshal_Push : list Byte.byte -> M (GoResult Push))
    (write_fails : list WireMsg -> WireMsg -> option GoError)
    (Error_string : GoError -> string) (ctx_String : string)
    (w : World) (curUser : User) (updates : chan) (conn : list WireMsg) :
  let step :=
    push_loop_step json_Marshal_Push json_Unmarshal_Push write_fails
                   Error_string ctx_String curUser updates conn in
  (exists conn' w',
     step (Received None) w = (Ret (conn', Return errChanClosed), w') /\
     w_chans w' = w_chans w /\ w_players w' = w_players w) /\
  (write_fails conn (PingMessage "ping") = None ->
   step Tick w = (Ret (conn ++ [PingMessage "ping"], Continue), w)) /\
  (forall err,
     write_fails conn (PingMessage "ping") = Some err ->
     errors_Is_EPIPE err = false ->
     exists w', step Tick w = (Ret (conn, Continue), w') /\
                w_chans w' = w_chans w /\ w_players w' = w_players w /\
                length (w_log w') = S (length (w_log w))) /\
  (forall err,
     write_fails conn (PingMessage "ping") = Some err ->
     errors_Is_EPIPE err = true ->
     (ch_closed (chan_state w updates) = false ->
      exists w', step Tick w = (Ret (conn, Return err), w') /\
                 chan_state w' updates =
                   mkChan true (ch_sent (chan_state w updates)) /\
                 w_players w' = w_players w) /\
     (ch_closed (chan_state w updates) = true ->
      (step Tick w).1 = Panic "close of closed channel")).
Proof.
  cbv zeta. split; [| split; [| split]].
  - destruct (push_loop_step_nil json_Marshal_Push json_Unmarshal_Push
                write_fails Error_string ctx_String w curUser conn updates)
      as (conn' & w' & H & Hc & Hp & _). eauto.
  - intros H. now rewrite push_loop_step_Tick, H.
  - intros err H He. rewrite push_loop_step_Tick, H. cbv zeta. rewrite He.
    eexists. split; [reflexivity|]. repeat split. simpl.
    rewrite length_app. simpl. lia.
  - intros err H He. rewrite push_loop_step_Tick, H. cbv zeta. rewrite He.
    split; intros Hc; rewrite Hc; [| reflexivity].
    eexists. split; [reflexivity|]. split; [| reflexivity].
    unfold chan_state. simpl. now rewrite lookup_insert_eq.
Qed.

Lemma push_loop_step_spec_witness :
  exists w',
    push_loop_step marshal_nothing unmarshal_item0 peer_gone say_error "ctx"
                   bob 1%positive [] Tick table2 =
    (Ret ([], Return (Wrapped "write tcp" EPIPE)), w') /\
    chan_state w' 1%positive = mkChan true [] /\
    (updates <$> w_players w' !! 1%nat) = Some (Some 1%positive).
Proof.
  destruct (push_loop_step_spec marshal_nothing unmarshal_item0 peer_gone
              say_error "ctx" table2 bob 1%positive [])
    as (_ & _ & _ & H).
  destruct (H (Wrapped "write tcp" EPIPE)) as [H' _]; [reflexivity | reflexivity |].
  destruct H' as (w' & Hrun & Hc & Hp); [reflexivity|].
  exists w'. split; [exact Hrun | split; [exact Hc |]].
  rewrite Hp. reflexivity.
Defined.

(** ** Sessions and request contexts *)

Section SessionFacts.

Variable base64_DecodeString : string -> GoResult (list Byte.byte).
Variable json_Unmarshal_session : list Byte.byte -> GoResult (UUID * Z * string).
Variable users : gmap UUID User.

#[local] Abbreviation getUser :=
  (getUserFromSession base64_DecodeString json_Unmarshal_session users).

(** The user of a session is a registered user, under the id of the
    session. *)
Lemma getUserFromSession_user (r : Request) (sess : session) (u : User) :
  getUser r = GoOk sess -> sess_user sess = Some u ->
  users !! sess_UserID sess = Some u /\ is_Some (req_cookies r !! "session").
Proof.
  unfold getUserFromSession.
  destruct (req_cookies r !! "session") as [v|]; [| intros [= <-]; discriminate].
  unfold parseFromCookie.
  destruct (String.eqb v ""); [discriminate|].
  destruct (base64_DecodeString v) as [b|e]; [| discriminate].
  destruct (json_Unmarshal_session b) as [[[id created] name]|e]; [| discriminate].
  cbn [sess_UserID sess_user empty_session].
  destruct (users !! id) as [u'|] eqn:Hu.
  - intros [= <-] [= <-]. split; [exact Hu | eauto].
  - intros [= <-]. discriminate.
Qed.

End SessionFacts.

(** X21: a handler behind [authenticated] runs only for a registered user:
    whatever the handler [f] and the request, either the call is the call of
    [f], and then the request carries a session cookie whose user id is that
    of a registered user; or [f] is not run at all, and the answer is the
    error of the cookie, or 401 when there is no cookie or no such user. *)
Theorem authenticated_spec
    (base64_DecodeString : string -> GoResult (list Byte.byte))
    (json_Unmarshal_session : list Byte.byte -> GoResult (UUID * Z * string))
    (Reply : Type) (httpx_String : Z -> Reply) (users : gmap UUID User)
    (f : Request -> M (GoResult Reply)) (r : Request) :
  let auth := authenticated base64_DecodeString json_Unmarshal_session
                            Reply httpx_String users in
  let getUser := getUserFromSession base64_DecodeString json_Unmarshal_session
                                    users in
  (auth f r = f r /\
   exists sess u, getUser r = GoOk sess /\
                  users !! sess_UserID sess = Some u /\
                  is_Some (req_cookies r !! "session")) \/
  (auth f r = mret (GoOk (httpx_String StatusUnauthorized)) /\
   (req_cookies r !! "session" = None \/
    exists sess, getUser r = GoOk sess /\ users !! sess_UserID sess = None)) \/
  (exists err, auth f r = mret (GoErr err) /\ getUser r = GoErr err).
Proof.
  cbv zeta. unfold authenticated.
  destruct (getUserFromSession _ _ users r) as [sess|err] eqn:Hs.
  2: { right. right. eauto. }
  destruct (sess_user sess) as [u|] eqn:Hu.
  - left. split; [reflexivity|].
    destruct (getUserFromSession_user _ _ users r sess u Hs Hu). eauto.
  - right. left. split; [reflexivity|].
    revert Hs. unfold getUserFromSession.
    destruct (req_cookies r !! "session") as [v|]; [| auto].
    destruct (parseFromCookie _ _ empty_session v) as [s'|e]; [| discriminate].
    destruct (users !! sess_UserID s') as [u'|] eqn:Hu'.
    + intros [= <-]. discriminate.
    + intros [= <-]. right. exists s'. auto.
Qed.

Lemma authenticated_spec_witness :
  authenticated sample_base64 sample_json_session Z id sample_users
                (fun _ => mret (GoOk 200)) alice_request
    = mret (GoOk 200) /\
  authenticated sample_base64 sample_json_session Z id sample_users
                (fun _ => mret (GoOk 200)) anonymous_request
    = mret (GoOk StatusUnauthorized) /\
  authenticated sample_base64 sample_json_session Z id ∅
                (fun _ => mret (GoOk 200)) alice_request
    = mret (GoOk StatusUnauthorized).
Proof.
  split; [| split].
  - destruct (authenticated_spec sample_base64 sample_json_session Z id
                sample_users (fun _ => mret (GoOk 200)) alice_request)
      as [[H _] | [[_ [H | (s & H & H')]] | (e & _ & H)]];
      [exact H | discriminate H | | discriminate H].
    vm_compute in H. injection H as <-. discriminate H'.
  - destruct (authenticated_spec sample_base64 sample_json_session Z id
                sample_users (fun _ => mret (GoOk 200)) anonymous_request)
      as [[_ (s & u & _ & _ & [v H])] | [[H _] | (e & _ & H)]];
      [discriminate H | exact H | discriminate H].
  - destruct (authenticated_spec sample_base64 sample_json_session Z id
                ∅ (fun _ => mret (GoOk 200)) alice_request)
      as [[_ (s & u & _ & H & _)] | [[H _] | (e & _ & H)]];
      [discriminate H | exact H | discriminate H].
Defined.

(** X22: the context of a table handler is built user first, table second,
    and the first failure is the one reported: a session cookie that does
    not parse gives its error whatever the table id; then a bad table id
    gives bad request, then an unknown table not found; otherwise the
    context holds the table and the user of the session, which is no user
    at all when the request has no cookie. *)
Theorem handler_context_spec
    (base64_DecodeString : string -> GoResult (list Byte.byte))
    (json_Unmarshal_session : list Byte.byte -> GoResult (UUID * Z * string))
    (uuid_Parse : string -> GoResult UUID) (T : Type)
    (users : gmap UUID User) (tables : gmap UUID T)
    (ctx : string) (r : Request) :
  let id := default "" (req_vars r !! "id") in
  handler_context base64_DecodeString json_Unmarshal_session uuid_Parse T
                  users tables ctx r =
  match getUserFromSession base64_DecodeString json_Unmarshal_session users r with
  | GoErr err => GoErr err
  | GoOk sess =>
      match uuid_Parse id with
      | GoErr _ =>
          GoErr (HttpErr (NewError StatusBadRequest ("bad id: " +:+ id)))
      | GoOk tableID =>
          match tables !! tableID with
          | None => GoErr (HttpErr (NewError StatusNotFound "table not found"))
          | Some table => GoOk (mkContext ctx (Some table) (sess_user sess))
          end
      end
  end.
Proof.
  cbv zeta. unfold handler_context, build, withUser, withTable, newContextBuilder.
  cbn [b_err b_ctx].
  destruct (getUserFromSession _ _ users r) as [sess|err]; cbn [b_err b_ctx];
    [| reflexivity].
  destruct (uuid_Parse _) as [tableID|e]; cbn [b_err b_ctx]; [| reflexivity].
  destruct (tables !! tableID); reflexivity.
Qed.

(** ** More on the handlers *)

(** X23: update-item, show-item, join and shuffle keep the rule of the
    locks: whatever the request and the state of the table, and whether the
    request succeeds, fails or panics, what such a handler adds to the trace
    has every send after the release of the lock.  [Join] and [Shuffle] are
    any implementations that send nothing and take no lock themselves. *)
Theorem handlers_lock_discipline (Join : User -> M (list loc)) (Shuffle : M unit)
    (curUser : User) :
  (forall u, quiet (Join u)) -> quiet Shuffle ->
  (forall src, lock_discipline (updateTable curUser src)) /\
  (forall id, lock_discipline (showCard curUser id)) /\
  lock_discipline (joinTable Join curUser) /\
  lock_discipline (shuffle Shuffle curUser).
Proof.
  intros HJ HS. split; [| split; [| split]].
  - intros src. apply updateTable_lock_discipline.
  - intros id. apply showCard_lock_discipline.
  - now apply joinTable_lock_discipline.
  - now apply shuffle_lock_discipline.
Qed.

Lemma handlers_lock_discipline_witness :
  lock_discipline (updateTable alice bob_moves_card7) /\
  lock_discipline (joinTable Join_nothing carol).
Proof.
  destruct (handlers_lock_discipline Join_nothing (mret tt) alice)
    as (H & _); [intros u w; reflexivity | intros w; reflexivity |].
  destruct (handlers_lock_discipline Join_nothing (mret tt) carol)
    as (_ & _ & H' & _); [intros u w; reflexivity | intros w; reflexivity |].
  split; [apply H | exact H'].
Defined.

Section UpdateTableOk.

Variables (w : World) (curUser : User) (src : TableItem) (p dest : loc)
          (d : TableItem).
Hypothesis Hseat : Players (w_table w) !! User_ID curUser = Some p.
Hypothesis Hget :
  TableItemList_Get (Items (w_table w)) (ID src) w = (Ret (Some dest), w).
Hypothesis Hd : w_items w !! dest = Some d.
Hypothesis Hclass : Class d = Class src.
Hypothesis Hwf : players_wf w.

Let u : loc := fresh (dom (w_items w)).
Let wa : World := set_w_items (<[u := zero_item]> (w_items w)) w.
Let wb : World := set_w_trace (w_trace w ++ [EvLock]) wa.
Let new : TableItem := updateItem_result curUser src d.



End UpdateTableOk.



(** X25: a seated viewer who starts listening is given a channel of its
    own: the channel is new, open and empty, it is attached to the viewer's
    player, and the channel that was attached before, if any, is closed;
    this on a player whose attached channel is open and known to the store. *)
Theorem pushTableUpdates_subscribe_ok (w : World) (curUser : User) (p : loc)
    (pl : Player) :
  Players (w_table w) !! User_ID curUser = Some p ->
  w_players w !! p = Some pl ->
  attached_open w p ->
  (forall old, updates pl = Some old -> old ∈ dom (w_chans w)) ->
  let c := fresh (dom (w_chans w)) in
  exists w',
    pushTableUpdates_subscribe curUser w = (Ret (Ok c), w') /\
    (c ∉ dom (w_chans w)) /\
    chan_state w' c = mkChan false [] /\
    w_players w' !! p = Some (set_updates (Some c) pl) /\
    (forall old, updates pl = Some old ->
       chan_state w' old = mkChan true (ch_sent (chan_state w old))) /\
    w_items w' = w_items w /\ w_table w' = w_table w.
Proof.
  intros Hseat Hp Hopen Hknown c.
  assert (Hfresh : c ∉ dom (w_chans w)) by apply is_fresh.
  set (w0 := set_w_trace (w_trace w ++ [EvLock])
               (set_w_chans (<[c := mkChan false []]> (w_chans w)) w)).
  assert (Hst : forall x, x <> c -> chan_state w0 x = chan_state w x).
  { intros x Hx. unfold chan_state, w0. simpl.
    rewrite lookup_insert_ne by (apply not_eq_sym, Hx). reflexivity. }
  unfold pushTableUpdates_subscribe. rewrite run_bind. unfold make_chan.
  fold c. destruct (updates pl) as [old|] eqn:Hu.
  - assert (Hoc : old <> c).
    { intros ->. apply Hfresh. now apply Hknown. }
    erewrite run_bind_ret.
    2: { apply run_Update. rewrite run_bind. simpl. rewrite Hseat.
         erewrite run_bind_ret.
         2: { apply Subscribe_open with (pl := pl) (old := old);
                [exact Hp | exact Hu |].
              fold w0. rewrite Hst by exact Hoc. exact (Hopen pl old Hp Hu). }
         reflexivity. }
    eexists. split; [reflexivity|]. split; [exact Hfresh|].
    split; [| split; [| split; [| split]]].
    + unfold chan_state. simpl. rewrite lookup_insert_ne by exact Hoc.
      now rewrite lookup_insert_eq.
    + simpl. apply lookup_insert_eq.
    + intros ? [= <-]. unfold chan_state at 1. simpl.
      rewrite lookup_insert_eq. fold w0. now rewrite Hst.
    + reflexivity.
    + reflexivity.
  - erewrite run_bind_ret.
    2: { apply run_Update. rewrite run_bind. simpl. rewrite Hseat.
         erewrite run_bind_ret.
         2: { apply Subscribe_detached with (pl := pl); [exact Hp | exact Hu]. }
         reflexivity. }
    eexists. split; [reflexivity|]. split; [exact Hfresh|].
    split; [| split; [| split; [| split]]].
    + unfold chan_state. simpl. now rewrite lookup_insert_eq.
    + simpl. apply lookup_insert_eq.
    + discriminate.
    + reflexivity.
    + reflexivity.
Qed.

Lemma pushTableUpdates_subscribe_ok_witness :
  exists w',
    pushTableUpdates_subscribe bob table2 = (Ret (Ok 2%positive), w') /\
    chan_state w' 2%positive = mkChan false [] /\
    chan_state w' 1%positive = mkChan true [] /\
    w_players w' !! 1%nat = Some (mkPlayer bob "#9B59B6" "" 1 (Some 2%positive)).
Proof.
  destruct (pushTableUpdates_subscribe_ok table2 bob 1%nat
              (mkPlayer bob "#9B59B6" "" 1 (Some 1%positive)))
    as (w' & Hrun & _ & Hc & Hp & Hold & _);
    [reflexivity | reflexivity | apply table2_attached_open | |].
  - intros old [= <-]. apply elem_of_dom.
    exists (mkChan false []). reflexivity.
  - exists w'. split; [exact Hrun | split; [exact Hc | split; [| exact Hp]]].
    rewrite (Hold 1%positive); reflexivity.
Defined.
